(** * Cops and robber on edge-periodic graphs: the game graph and the verdict

    A shallow embedding of [cop_robber_game.py]: the temporal adjacency
    matrix, the time horizon, the state set and the arc set of the game
    graph built by [get_game_graph], the arena split of
    [game_graph_to_reachability_game], and the classification done by
    [is_kcop_win] on the attractor returned by the external solver.

    Python values are modelled as follows.
    - A vertex is any hashable value: a type with decidable equality that
      is countable (it is used as a dictionary key and as a set member).
    - Lists and tuples are [list]; a game-graph state [( *c, r, s, t)] is a
      record with the cop tuple, the robber, the turn flag and the time.
    - [tau] is a dictionary in insertion order (an association list, since
      [functools.reduce] walks [tau.values()] in that order);
      [vertex_index] and [starting_classes] are finite maps.
    - Integers that are lengths or time indices are [nat]; the number of
      cops [k] is any Python integer, hence [Z].
    - A Python exception is a value of [exn]; code that may raise returns
      a [result]. *)

From Stdlib Require Import ZArith String Ascii.
From stdpp Require Import gmap strings list.

Local Open Scope string_scope.
Local Open Scope list_scope.
Local Open Scope nat_scope.

(** ** Exceptions *)

Inductive exn : Set :=
  | NameError
  | ZeroDivisionError
  | ValueError
  | KeyError
  | IndexError.

Inductive result (A : Type) : Type :=
  | Ok (a : A)
  | Raise (e : exn).

Arguments Ok {A} a.
Arguments Raise {A} e.

Definition bind {A B : Type} (m : result A) (f : A -> result B) : result B :=
  match m with
  | Ok a => f a
  | Raise e => Raise e
  end.

Notation "x <- m ;; k" := (bind m (fun x => k))
  (at level 62, m at next level, right associativity).

Definition returns {A : Type} (m : result A) : Prop := exists a, m = Ok a.

(** [mapM_r f l] evaluates [f] on the elements of [l] from left to right
    and stops at the first exception, like a comprehension or a loop. *)
Fixpoint mapM_r {A B : Type} (f : A -> result B) (l : list A) : result (list B) :=
  match l with
  | [] => Ok []
  | a :: l' => b <- f a ;; bs <- mapM_r f l' ;; Ok (b :: bs)
  end.

(** [filterM_r f l] keeps the elements on which [f] answers [True]. *)
Fixpoint filterM_r {A : Type} (f : A -> result bool) (l : list A) : result (list A) :=
  match l with
  | [] => Ok []
  | a :: l' =>
      b <- f a ;; rest <- filterM_r f l' ;; Ok (if b then a :: rest else rest)
  end.

(** ** Name resolution

    A free name of a function body is looked up in the module's globals
    (and then in the builtins) when the expression is evaluated. *)

Definition resolve (G : list string) (x : string) : result unit :=
  if bool_decide (x ∈ G) then Ok tt else Raise NameError.

(** The names bound by the top-level statements of the module: the five
    imports, the two constants, the three functions and the variables
    assigned under [if __name__ == '__main__']. *)
Definition module_globals : list string :=
  [ "__name__"; "math"; "functools"; "itertools"; "copy"; "get_attractor";
    "MAX_POOL_PROCESSES"; "MAX_QUEUE_SIZE";
    "get_game_graph"; "game_graph_to_reachability_game"; "is_kcop_win";
    "V"; "E"; "V_gg"; "A_gg"; "S0"; "S1"; "A"; "F"; "tau"; "n" ].

(** The builtins the module refers to. Python has no builtin called [mp]
    or [Empty]. *)
Definition builtins_used : list string :=
  [ "enumerate"; "len"; "list"; "map"; "abs"; "range"; "tuple"; "dict"; "set" ].

Definition module_namespace : list string := module_globals ++ builtins_used.

(** ** Subscripting *)

Definition subscript_list {A : Type} (l : list A) (i : nat) : result A :=
  match l !! i with
  | Some a => Ok a
  | None => Raise IndexError
  end.

Definition subscript_str (s : string) (i : nat) : result ascii :=
  match String.get i s with
  | Some a => Ok a
  | None => Raise IndexError
  end.

(** [a % b] on non-negative integers. *)
Definition py_mod (a b : nat) : result nat :=
  match b with
  | 0 => Raise ZeroDivisionError
  | S _ => Ok (a mod b)
  end.

(** ** Dictionaries in insertion order *)

Section Dict.
Context {K V : Type} `{EqDecision K}.

Fixpoint dict_get (d : list (K * V)) (k : K) : option V :=
  match d with
  | [] => None
  | (k', v) :: d' => if decide (k = k') then Some v else dict_get d' k
  end.

(** [d[k] = v]: overwrite in place, or append a new key. *)
Fixpoint dict_set (d : list (K * V)) (k : K) (v : V) : list (K * V) :=
  match d with
  | [] => [(k, v)]
  | (k', v') :: d' =>
      if decide (k = k') then (k, v) :: d' else (k', v') :: dict_set d' k v
  end.

Definition dict_values (d : list (K * V)) : list V := d.*2.
End Dict.

(** ** The model of [get_game_graph] *)

Section Game.
Context {Vertex : Type} `{Countable Vertex}.

Definition edge : Type := Vertex * Vertex.
Definition presence_map : Type := list (edge * string).

Record state : Type := State {
  cops : list Vertex;
  robber : Vertex;
  turn : bool;
  time : nat
}.

Definition arc : Type := state * state.

#[global] Instance state_eq_dec : EqDecision state.
Proof. solve_decision. Defined.

(** [{e: '1' for e in E}] *)
Definition static_tau (E : list edge) : presence_map :=
  foldl (fun d e => dict_set d e "1") [] E.

(** [if tau is None: tau = {e: '1' for e in E}] *)
Definition effective_tau (E : list edge) (tau : option presence_map) : presence_map :=
  match tau with
  | None => static_tau E
  | Some d => d
  end.

Fixpoint enumerate_from {A : Type} (i : nat) (l : list A) : list (nat * A) :=
  match l with
  | [] => []
  | a :: l' => (i, a) :: enumerate_from (S i) l'
  end.

(** [{u: index for index, u in enumerate(V)}] *)
Definition vertex_index (V : list Vertex) : gmap Vertex nat :=
  foldl (fun m p => <[p.2 := p.1]> m) ∅ (enumerate_from 0 V).

(** The entry of the matrix for column vertex [u] and row vertex [v]:
    [tau[(u, v)] if (u, v) in tau else tau[(v, u)] if (v, u) in tau else '0'] *)
Definition adjancy_entry (tau : presence_map) (u v : Vertex) : string :=
  match dict_get tau (u, v) with
  | Some p => p
  | None =>
      match dict_get tau (v, u) with
      | Some p => p
      | None => "0"
      end
  end.

(** [[[... for u in V] for v in V]] *)
Definition adjancy (V : list Vertex) (tau : presence_map) : list (list string) :=
  (fun v => (fun u => adjancy_entry tau u v) <$> V) <$> V.

(** One step of the reduction: [abs(x*y) // math.gcd(x,y)]. *)
Definition lcm_step (x y : nat) : result nat :=
  match Nat.gcd x y with
  | 0 => Raise ZeroDivisionError
  | S _ as g => Ok ((x * y) / g)
  end.

(** [functools.reduce(f, x :: ys)] *)
Fixpoint reduce_lcm (x : nat) (ys : list nat) : result nat :=
  match ys with
  | [] => Ok x
  | y :: ys' => x' <- lcm_step x y ;; reduce_lcm x' ys'
  end.

Definition pattern_lengths (tau : presence_map) : list nat :=
  String.length <$> dict_values tau.

Definition time_horizon (tau : presence_map) : result nat :=
  match pattern_lengths tau with
  | [] => Ok 1
  | x :: ys => reduce_lcm x ys
  end.

(** [itertools.product(V, repeat=n)] for [n >= 0], in its order. *)
Fixpoint product (V : list Vertex) (n : nat) : list (list Vertex) :=
  match n with
  | 0 => [[]]
  | S n' => x ← V; (fun rest => x :: rest) <$> product V n'
  end.

Definition product_repeat (V : list Vertex) (n : Z) : result (list (list Vertex)) :=
  if (n <? 0)%Z then Raise ValueError else Ok (product V (Z.to_nat n)).

(** [*c, r = tup] *)
Definition unpack_star (tup : list Vertex) : result (list Vertex * Vertex) :=
  match last tup with
  | Some r => Ok (removelast tup, r)
  | None => Raise ValueError
  end.

(** The states of one time step and one turn value. *)
Definition slice_states (V : list Vertex) (k : Z) (t : nat) (s : bool) : result (list state) :=
  tuples <- product_repeat V (k + 1) ;;
  mapM_r (fun tup => cr <- unpack_star tup ;; Ok (State cr.1 cr.2 s t)) tuples.

(** [V_gg]: the nested comprehension over [range(time_horizon)],
    [[False, True]] and the product. The inner iterables are only
    evaluated when the outer loop has an element. *)
Definition game_states (V : list Vertex) (th : nat) (k : Z) : result (list state) :=
  slices <- mapM_r (fun t =>
              ss <- mapM_r (slice_states V k t) [false; true] ;; Ok (concat ss))
            (seq 0 th) ;;
  Ok (concat slices).
End Game.

Section Arcs.
Context {Vertex : Type} `{Countable Vertex}.

(** ** [add_to_arcs] *)

Definition subscript_index (vertex_index : gmap Vertex nat) (u : Vertex) : result nat :=
  match vertex_index !! u with
  | Some i => Ok i
  | None => Raise KeyError
  end.

(** The pattern symbol read by both branches of [add_to_arcs]:
    [adjancy[vertex_index[a]][vertex_index[b]][t % len(adjancy[vertex_index[a]][vertex_index[b]])]] *)
Definition symbol_at (adjancy : list (list string)) (vertex_index : gmap Vertex nat)
    (a b : Vertex) (t : nat) : result ascii :=
  i <- subscript_index vertex_index a ;;
  row <- subscript_list adjancy i ;;
  j <- subscript_index vertex_index b ;;
  pat <- subscript_list row j ;;
  n <- py_mod t (String.length pat) ;;
  subscript_str pat n.

(** The edge between [a] and [b] is present at step [t] when the symbol
    read there is ['1']. *)
Definition present (adjancy : list (list string)) (vertex_index : gmap Vertex nat)
    (a b : Vertex) (t : nat) : Prop :=
  symbol_at adjancy vertex_index a b t = Ok "1"%char.

(** The loop [for i in range(len(c0))] of the cops' move; the answer is
    the final value of [valid_flag]. *)
Fixpoint cops_move_valid (adjancy : list (list string)) (vertex_index : gmap Vertex nat)
    (t0 : nat) (c0 c1 : list Vertex) (slots : list nat) : result bool :=
  match slots with
  | [] => Ok true
  | i :: slots' =>
      a <- subscript_list c0 i ;;
      b <- subscript_list c1 i ;;
      if bool_decide (a ≠ b) then
        sym <- symbol_at adjancy vertex_index a b t0 ;;
        if bool_decide (sym = "0"%char) then Ok false
        else cops_move_valid adjancy vertex_index t0 c0 c1 slots'
      else cops_move_valid adjancy vertex_index t0 c0 c1 slots'
  end.

(** The body of the [try] block for the dequeued pair [(u, v)]; the
    answer tells whether [(u, v)] is appended to [A_gg]. *)
Definition add_to_arcs_try (adjancy : list (list string)) (vertex_index : gmap Vertex nat)
    (time_horizon : nat) (u v : @state Vertex) : result bool :=
  let c0 := cops u in let r0 := robber u in let s0 := turn u in let t0 := time u in
  let c1 := cops v in let r1 := robber v in let s1 := turn v in let t1 := time v in
  if bool_decide (r0 ∈ c0) then Ok false
  else if bool_decide (t0 = t1) && negb s0 && s1 && bool_decide (r0 = r1) then
    cops_move_valid adjancy vertex_index t0 c0 c1 (seq 0 (length c0))
  else
    m <- py_mod (t0 + 1) time_horizon ;;
    if bool_decide (m = t1) && s0 && negb s1 && bool_decide (c0 = c1)
       && bool_decide (r1 ∉ c1) then
      if bool_decide (r0 = r1) then Ok true
      else
        sym <- symbol_at adjancy vertex_index r0 r1 t0 ;;
        Ok (bool_decide (sym = "1"%char))
    else Ok false.

(** [except Empty: pass]: an exception of the body is matched against
    the name [Empty], which has to be resolved first. No exception of
    the body is a queue timeout, so a resolved [Empty] does not catch it. *)
Definition add_to_arcs (G : list string) (adjancy : list (list string))
    (vertex_index : gmap Vertex nat) (time_horizon : nat) (u v : @state Vertex) : result bool :=
  match add_to_arcs_try adjancy vertex_index time_horizon u v with
  | Ok b => Ok b
  | Raise e => _ <- resolve G "Empty" ;; Raise e
  end.

(** Modelled from the spec: the queue and the worker pool behind the name
    [mp], which the module does not bind. Every pair of
    [itertools.product(V_gg, repeat=2)] is put on the queue, each is
    tested once by [add_to_arcs], and the qualifying pairs are collected
    into [A_gg]; a failure of a worker aborts the construction. *)
Definition game_arcs (G : list string) (adjancy : list (list string))
    (vertex_index : gmap Vertex nat) (time_horizon : nat)
    (V_gg : list (@state Vertex)) : result (list (@arc Vertex)) :=
  filterM_r (fun a => add_to_arcs G adjancy vertex_index time_horizon a.1 a.2)
            (cprod V_gg V_gg).

(** [get_game_graph(V, E, tau, k)] run in a module whose bound names
    are [G]. *)
Definition get_game_graph (G : list string) (V : list Vertex) (E : list (@edge Vertex))
    (tau : option (@presence_map Vertex)) (k : Z)
    : result (list (@state Vertex) * list (@arc Vertex)) :=
  let tau := effective_tau E tau in
  let vertex_index := vertex_index V in
  let adjancy := adjancy V tau in
  time_horizon <- time_horizon tau ;;
  V_gg <- game_states V time_horizon k ;;
  _ <- resolve G "mp" ;;
  A_gg <- game_arcs G adjancy vertex_index time_horizon V_gg ;;
  Ok (V_gg, A_gg).

(** ** [game_graph_to_reachability_game] *)

Definition arena : Type :=
  list (@state Vertex) * list (@state Vertex) * list (@arc Vertex) * list (@state Vertex).

(** One iteration of [for v in V_gg] on the accumulators [(S0, S1, F)]. *)
Definition partition_step (acc : list (@state Vertex) * list (@state Vertex) * list (@state Vertex))
    (v : @state Vertex) : list (@state Vertex) * list (@state Vertex) * list (@state Vertex) :=
  let '(S0, S1, F) := acc in
  let F := if bool_decide (robber v ∈ cops v) then F ++ [v] else F in
  if turn v then (S0, S1 ++ [v], F) else (S0 ++ [v], S1, F).

Definition game_graph_to_reachability_game (V_gg : list (@state Vertex))
    (A_gg : list (@arc Vertex)) : arena :=
  let A := A_gg in
  let '(S0, S1, F) := foldl partition_step ([], [], []) V_gg in
  (S0, S1, A, F).

(** ** [is_kcop_win] *)

(** The dictionary built by the loop over the attractor. *)
Definition starting_classes_step (m : gmap (list Vertex) (gset Vertex)) (st : @state Vertex)
    : gmap (list Vertex) (gset Vertex) :=
  let c := cops st in
  if bool_decide (time st = 0) && negb (turn st) then
    let m := if bool_decide (m !! c = None) then <[c := ∅]> m else m in
    alter (fun cls => cls ∪ {[robber st]}) c m
  else m.

Definition starting_classes (attractor : list (@state Vertex)) : gmap (list Vertex) (gset Vertex) :=
  foldl starting_classes_step ∅ attractor.

(** The last two statements: [True] as soon as a class has [n] members. *)
Definition kcop_verdict (n : nat) (attractor : list (@state Vertex)) : bool :=
  existsb (fun kv => bool_decide (size kv.2 = n)) (map_to_list (starting_classes attractor)).

Definition is_kcop_win (G : list string) (get_attractor : arena -> list (@state Vertex))
    (V : list Vertex) (E : list (@edge Vertex)) (tau : option (@presence_map Vertex)) (k : Z)
    : result bool :=
  gg <- get_game_graph G V E tau k ;;
  let attractor := get_attractor (game_graph_to_reachability_game gg.1 gg.2) in
  Ok (kcop_verdict (length V) attractor).
End Arcs.

(** ** Predicates used to state the properties *)

(** What the data model calls the least common multiple of a list of
    lengths: the smallest positive number every length divides. *)
Definition least_common_multiple (l : list nat) (m : nat) : Prop :=
  0 < m /\ (forall n, n ∈ l -> (n | m)) /\
  (forall m', 0 < m' -> (forall n, n ∈ l -> (n | m')) -> m <= m').

Definition zeros (l : list nat) : nat := length (filter (fun n => n = 0) l).

Section Predicates.
Context {Vertex : Type} `{Countable Vertex}.
Implicit Types (V : list Vertex) (tau : @presence_map Vertex) (st u v : @state Vertex).

(** Patterns as the data model wants them. *)
Definition nonempty_patterns tau : Prop :=
  forall e p, (e, p) ∈ tau -> p <> "".

Definition binary_patterns tau : Prop :=
  forall e p, (e, p) ∈ tau ->
    forall i c, String.get i p = Some c -> c = "0"%char \/ c = "1"%char.

(** The pattern that [tau] holds under a key: that of the first entry
    with this key, the only one in a dictionary. *)
Definition tau_pattern tau (key : @edge Vertex) (p : string) : Prop :=
  exists l1 l2, tau = l1 ++ (key, p) :: l2 /\ forall q, (key, q) ∉ l1.

Definition tau_unmapped tau (key : @edge Vertex) : Prop :=
  forall q, (key, q) ∉ tau.

(** Presence of the edge between [a] and [b] at step [t], read from [a]
    to [b], in terms of [tau] alone: the pattern of the pair, held under
    the key [(b, a)] or, when that key is unmapped, under [(a, b)], shows
    ['1'] at index [t] modulo its length. A pair without a pattern is
    absent at every step. *)
Definition edge_present tau (a b : Vertex) (t : nat) : Prop :=
  exists p,
    (tau_pattern tau (b, a) p \/ (tau_unmapped tau (b, a) /\ tau_pattern tau (a, b) p)) /\
    String.get (t mod String.length p) p = Some "1"%char.

(** The number of entries of [tau] whose pattern is the empty string. *)
Definition empty_patterns tau : nat :=
  length (filter (fun ep => ep.2 = "") tau).

(** The tuples [( *c, r, s, t)] with [k] cops on [V] and a time index
    below the horizon. *)
Definition is_state V (th : nat) (k : Z) st : Prop :=
  time st < th /\ Z.of_nat (length (cops st)) = k /\
  (forall x, x ∈ cops st -> x ∈ V) /\ robber st ∈ V.

(** A cops' move, in the words of the transition rules: the cops are
    to move, the robber and the time stay, the source is no capture, and
    every slot stays or follows an edge present at the source's time. *)
Definition cop_move_legal (adjancy : list (list string)) (vertex_index : gmap Vertex nat)
    u v : Prop :=
  turn u = false /\ turn v = true /\ time v = time u /\ robber v = robber u /\
  (robber u ∉ cops u) /\
  forall i a b, cops u !! i = Some a -> cops v !! i = Some b ->
    a = b \/ present adjancy vertex_index a b (time u).

(** A robber's move: the robber is to move, the time advances modulo
    the horizon, the cops stay, neither end places the robber on a cop,
    and the robber stays or follows an edge present at the source's time. *)
Definition robber_move_legal (adjancy : list (list string)) (vertex_index : gmap Vertex nat)
    (time_horizon : nat) u v : Prop :=
  turn u = true /\ turn v = false /\ time v = (time u + 1) mod time_horizon /\
  cops v = cops u /\ (robber u ∉ cops u) /\ (robber v ∉ cops v) /\
  (robber v = robber u \/ present adjancy vertex_index (robber u) (robber v) (time u)).

(** What [starting_classes] holds after the loop has consumed a list of
    attractor states: a key for each cop tuple that has a start state
    in the list, with exactly the robbers of those start states. *)
Definition classes_of (m : gmap (list Vertex) (gset Vertex)) (att : list (@state Vertex)) : Prop :=
  forall c : list Vertex,
    match m !! c with
    | None => forall r, State c r false 0 ∉ att
    | Some R => (exists r, r ∈ R) /\ forall r, r ∈ R <-> State c r false 0 ∈ att
    end.
End Predicates.

(** ** The graphs of the module's self-test

    [K_2] and the path with a periodic edge, with vertices in [nat], and a
    namespace in which the two missing names are bound. *)

Definition resolved_namespace : list string := "mp" :: "Empty" :: module_namespace.

Definition K2_V : list nat := [1; 2].
Definition K2_E : list (nat * nat) := [(1, 2)].

Definition P2_V : list nat := [1; 2; 3].
Definition P2_E : list (nat * nat) := [(1, 2); (2, 3)].
Definition P2_tau : list (nat * nat * string) := [((1, 2), "1"); ((2, 3), "01")].

(** The 36 states of the path: horizon 2, one cop. *)
Definition P2_states : list (@state nat) :=
  Eval vm_compute in
    match game_states P2_V 2 1 with
    | Ok l => l
    | Raise _ => []
    end.

(** The 8 states of [K_2] with one cop, and a list standing for an
    attractor: the start states from which the cop at vertex 1 wins. *)
Definition K2_states : list (@state nat) :=
  Eval vm_compute in
    match game_states K2_V 1 1 with
    | Ok l => l
    | Raise _ => []
    end.

Definition K2_attractor : list (@state nat) :=
  [State [1] 1 false 0; State [1] 2 false 0; State [1] 1 true 0].

(** The arcs the self-test expects for [K_2] with two cops. *)
Definition K2_two_cops_arcs : list (@arc nat) :=
  [ (State [1; 1] 2 false 0, State [1; 1] 2 true 0);
    (State [1; 1] 2 false 0, State [1; 2] 2 true 0);
    (State [1; 1] 2 false 0, State [2; 1] 2 true 0);
    (State [1; 1] 2 false 0, State [2; 2] 2 true 0);
    (State [1; 1] 2 true 0, State [1; 1] 2 false 0);
    (State [2; 2] 1 false 0, State [1; 1] 1 true 0);
    (State [2; 2] 1 false 0, State [1; 2] 1 true 0);
    (State [2; 2] 1 false 0, State [2; 1] 1 true 0);
    (State [2; 2] 1 false 0, State [2; 2] 1 true 0);
    (State [2; 2] 1 true 0, State [2; 2] 1 false 0) ].

(** The arcs of [K_2] with one cop and of the path, as the model builds
    them, and the arena of the former. *)
Definition K2_arcs : list (@arc nat) :=
  Eval vm_compute in
    match game_arcs resolved_namespace (adjancy K2_V (effective_tau K2_E None))
            (vertex_index K2_V) 1 K2_states with
    | Ok l => l
    | Raise _ => []
    end.

Definition P2_arcs : list (@arc nat) :=
  Eval vm_compute in
    match game_arcs resolved_namespace (adjancy P2_V P2_tau) (vertex_index P2_V) 2
            P2_states with
    | Ok l => l
    | Raise _ => []
    end.

Definition K2_arena : @arena nat :=
  Eval vm_compute in game_graph_to_reachability_game K2_states K2_arcs.

(** The attractor list above, reordered, with a repetition and without
    the state where the robber is to move. *)
Definition K2_attractor_shuffled : list (@state nat) :=
  [State [1] 2 false 0; State [1] 1 false 0; State [1] 2 false 0].

(** * Properties *)

(** ** The exception monad *)

Lemma bind_ok_inv {A B : Type} (m : result A) (f : A -> result B) (b : B) :
  bind m f = Ok b -> exists a, m = Ok a /\ f a = Ok b.
Proof. destruct m as [a|e]; simpl; [eauto | discriminate]. Qed.

Lemma mapM_r_elem {A B : Type} (f : A -> result B) (l : list A) (bs : list B) :
  mapM_r f l = Ok bs -> forall b, b ∈ bs <-> exists a, a ∈ l /\ f a = Ok b.
Proof.
  revert bs. induction l as [|a l IH]; simpl; intros bs Hm b.
  - injection Hm as <-. split; [intros Hb | intros (a & Ha & _)]; by apply elem_of_nil in Hb || apply elem_of_nil in Ha.
  - apply bind_ok_inv in Hm as (b0 & Hb0 & Hm).
    apply bind_ok_inv in Hm as (bs0 & Hbs0 & Hm). injection Hm as <-.
    rewrite elem_of_cons, (IH _ Hbs0). split.
    + intros [-> | (a' & Ha' & Hf)].
      * exists a. split; [left | done].
      * exists a'. split; [by right | done].
    + intros (a' & Ha' & Hf). apply elem_of_cons in Ha' as [-> | Ha'].
      * left. congruence.
      * right. eauto.
Qed.

Lemma mapM_r_returns {A B : Type} (f : A -> result B) (l : list A) :
  (forall a, a ∈ l -> returns (f a)) -> returns (mapM_r f l).
Proof.
  induction l as [|a l IH]; simpl; intros Hf.
  - by eexists.
  - destruct (Hf a) as [b Hb]; [left |]. rewrite Hb. simpl.
    destruct IH as [bs Hbs]; [intros; apply Hf; by right |].
    rewrite Hbs. simpl. by eexists.
Qed.

Lemma filterM_r_elem {A : Type} (f : A -> result bool) (l r : list A) :
  filterM_r f l = Ok r -> forall a, a ∈ r <-> a ∈ l /\ f a = Ok true.
Proof.
  revert r. induction l as [|a l IH]; simpl; intros r Hm x.
  - injection Hm as <-. split; [intros Hx | intros [Hx _]]; by apply elem_of_nil in Hx.
  - apply bind_ok_inv in Hm as (b & Hb & Hm).
    apply bind_ok_inv in Hm as (r0 & Hr0 & Hm). injection Hm as <-.
    specialize (IH _ Hr0 x). destruct b.
    + rewrite !elem_of_cons, IH. split.
      * intros [-> | [? ?]]; auto.
      * intros [[-> | ?] ?]; auto.
    + rewrite elem_of_cons, IH. split.
      * intros [? ?]; auto.
      * intros [[-> | ?] ?]; [congruence | auto].
Qed.

Lemma filterM_r_returns {A : Type} (f : A -> result bool) (l : list A) :
  (forall a, a ∈ l -> returns (f a)) -> returns (filterM_r f l).
Proof.
  induction l as [|a l IH]; simpl; intros Hf.
  - by eexists.
  - destruct (Hf a) as [b Hb]; [left |]. rewrite Hb. simpl.
    destruct IH as [bs Hbs]; [intros; apply Hf; by right |].
    rewrite Hbs. simpl. by eexists.
Qed.

(** ** Dictionaries *)

Section DictFacts.
Context {K V : Type} `{EqDecision K}.

Lemma dict_get_Some (d : list (K * V)) (k : K) (v : V) :
  dict_get d k = Some v -> (k, v) ∈ d.
Proof.
  induction d as [|[k' v'] d IH]; simpl; [discriminate |].
  destruct (decide (k = k')) as [-> | Hne].
  - intros [= ->]. left.
  - intros Hd. right. auto.
Qed.

Lemma dict_get_set (d : list (K * V)) (k k' : K) (v : V) :
  dict_get (dict_set d k v) k' = if decide (k' = k) then Some v else dict_get d k'.
Proof.
  induction d as [|[k0 v0] d IH]; simpl.
  - by destruct (decide (k' = k)).
  - destruct (decide (k = k0)) as [-> | Hne]; simpl.
    + by destruct (decide (k' = k0)).
    + rewrite IH. destruct (decide (k' = k0)) as [-> | ?]; [|done].
      destruct (decide (k0 = k)); [congruence | done].
Qed.
End DictFacts.

(** ** The adjacency matrix and the symbol lookup *)

Section AdjacencyFacts.
Context {Vertex : Type} `{Countable Vertex}.
Implicit Types (V : list Vertex) (tau : @presence_map Vertex) (a b u v : Vertex).

Lemma vertex_index_fold (l : list Vertex) (i : nat) (m : gmap Vertex nat) (u : Vertex) :
  let m' := foldl (fun m p => <[p.2 := p.1]> m) m (enumerate_from i l) in
  (u ∈ l -> exists j, m' !! u = Some j /\ i <= j /\ l !! (j - i) = Some u) /\
  (u ∉ l -> m' !! u = m !! u).
Proof.
  revert i m. induction l as [|a l IH]; intros i m; simpl.
  - split; [intros Hu; by apply elem_of_nil in Hu | done].
  - destruct (IH (S i) (<[a := i]> m)) as [IHin IHout].
    destruct (decide (u ∈ l)) as [Hin | Hout].
    + split; [intros _ | intros Hn; exfalso; apply Hn; by right].
      destruct (IHin Hin) as (j & Hj & Hle & Hl).
      exists j. split; [done |]. split; [lia |].
      replace (j - i) with (S (j - S i)) by lia. done.
    + split.
      * intros Hu. apply elem_of_cons in Hu as [-> | Hu]; [| done].
        exists i. rewrite (IHout Hout), lookup_insert_eq.
        split; [done |]. split; [lia |]. by rewrite Nat.sub_diag.
      * intros Hn. rewrite (IHout Hout). apply lookup_insert_ne.
        intros ->. apply Hn. left.
Qed.

Lemma vertex_index_lookup V u :
  u ∈ V -> exists i, vertex_index V !! u = Some i /\ V !! i = Some u.
Proof.
  intros Hu. destruct (vertex_index_fold V 0 ∅ u) as [Hin _].
  destruct (Hin Hu) as (j & Hj & _ & Hl). exists j.
  rewrite Nat.sub_0_r in Hl. done.
Qed.

Lemma adjancy_lookup V tau i j a b :
  V !! i = Some a -> V !! j = Some b ->
  exists row, adjancy V tau !! i = Some row /\ row !! j = Some (adjancy_entry tau b a).
Proof.
  intros Hi Hj. unfold adjancy. eexists. split.
  - rewrite list_lookup_fmap, Hi. reflexivity.
  - rewrite list_lookup_fmap, Hj. reflexivity.
Qed.

(** On vertices of [V] the lookup reads the pattern chosen for the
    pair, first under the key [(b, a)] and then under [(a, b)]. *)
Lemma symbol_at_adjancy V tau a b t :
  a ∈ V -> b ∈ V ->
  symbol_at (adjancy V tau) (vertex_index V) a b t =
    (n <- py_mod t (String.length (adjancy_entry tau b a)) ;;
     subscript_str (adjancy_entry tau b a) n).
Proof.
  intros Ha Hb.
  destruct (vertex_index_lookup V a Ha) as (i & Hia & Hi).
  destruct (vertex_index_lookup V b Hb) as (j & Hjb & Hj).
  destruct (adjancy_lookup V tau i j a b Hi Hj) as (row & Hrow & Hent).
  unfold symbol_at, subscript_index, subscript_list.
  rewrite Hia. simpl. rewrite Hrow. simpl. rewrite Hjb. simpl.
  rewrite Hent. reflexivity.
Qed.

Lemma string_get_lt (s : string) (n : nat) :
  n < String.length s -> exists c, String.get n s = Some c.
Proof.
  revert n. induction s as [|c s IH]; simpl; intros n Hn; [lia |].
  destruct n as [|n]; [by eexists |]. apply IH. lia.
Qed.


Lemma adjancy_entry_cases tau u v :
  adjancy_entry tau u v = "0" \/ exists e, (e, adjancy_entry tau u v) ∈ tau.
Proof.
  unfold adjancy_entry.
  destruct (dict_get tau (u, v)) as [p|] eqn:E1.
  - right. exists (u, v). by apply dict_get_Some.
  - destruct (dict_get tau (v, u)) as [p|] eqn:E2.
    + right. exists (v, u). by apply dict_get_Some.
    + by left.
Qed.

Lemma adjancy_entry_nonempty tau u v :
  nonempty_patterns tau -> 0 < String.length (adjancy_entry tau u v).
Proof.
  intros Hne. destruct (adjancy_entry_cases tau u v) as [-> | [e He]].
  - simpl. lia.
  - specialize (Hne _ _ He). destruct (adjancy_entry tau u v); [done | simpl; lia].
Qed.

Lemma adjancy_entry_binary tau u v i c :
  binary_patterns tau ->
  String.get i (adjancy_entry tau u v) = Some c -> c = "0"%char \/ c = "1"%char.
Proof.
  intros Hbin. destruct (adjancy_entry_cases tau u v) as [-> | [e He]].
  - destruct i as [|i]; simpl; [intros [= <-]; by left | discriminate].
  - by apply (Hbin _ _ He).
Qed.

Lemma symbol_at_returns V tau a b t :
  nonempty_patterns tau -> a ∈ V -> b ∈ V ->
  exists c, symbol_at (adjancy V tau) (vertex_index V) a b t = Ok c.
Proof.
  intros Hne Ha Hb. rewrite symbol_at_adjancy by done.
  pose proof (adjancy_entry_nonempty tau b a Hne) as Hlen.
  unfold py_mod. destruct (String.length (adjancy_entry tau b a)) as [|n] eqn:El; [lia |].
  cbn [bind]. unfold subscript_str.
  destruct (string_get_lt (adjancy_entry tau b a) (t mod S n)) as [c Hc].
  - rewrite El. apply Nat.mod_upper_bound. lia.
  - rewrite Hc. by eexists.
Qed.

Lemma symbol_at_binary V tau a b t c :
  binary_patterns tau -> a ∈ V -> b ∈ V ->
  symbol_at (adjancy V tau) (vertex_index V) a b t = Ok c ->
  c = "0"%char \/ c = "1"%char.
Proof.
  intros Hbin Ha Hb. rewrite symbol_at_adjancy by done.
  intros Hs. apply bind_ok_inv in Hs as (n & _ & Hs).
  unfold subscript_str in Hs.
  destruct (String.get n (adjancy_entry tau b a)) as [c'|] eqn:Eg; [| discriminate].
  injection Hs as <-. by apply (adjancy_entry_binary tau b a n).
Qed.
End AdjacencyFacts.

(** ** The time horizon *)


Section HorizonFacts.

Lemma lcm_step_pos (x y : nat) :
  0 < x -> 0 < y -> lcm_step x y = Ok (Nat.lcm x y).
Proof.
  intros Hx Hy. unfold lcm_step.
  assert (Nat.gcd x y <> 0) as Hg.
  { intros Hg. apply Nat.gcd_eq_0_l in Hg. lia. }
  destruct (Nat.gcd x y) as [|g] eqn:Eg; [done |].
  f_equal. unfold Nat.lcm. rewrite Eg.
  apply Nat.Lcm0.divide_div_mul_exact.
  rewrite <- Eg. apply Nat.gcd_divide_r.
Qed.

Lemma lcm_step_zero_l (y : nat) :
  lcm_step 0 y = match y with 0 => Raise ZeroDivisionError | S _ => Ok 0 end.
Proof. unfold lcm_step. rewrite Nat.gcd_0_l. by destruct y. Qed.

Lemma lcm_step_zero_r (x : nat) :
  0 < x -> lcm_step x 0 = Ok 0.
Proof.
  intros Hx. unfold lcm_step. rewrite Nat.gcd_0_r, Nat.mul_0_r.
  destruct x; [lia | done].
Qed.

Lemma lcm_pos (x y : nat) : 0 < x -> 0 < y -> 0 < Nat.lcm x y.
Proof.
  intros Hx Hy. destruct (Nat.lcm x y) eqn:El; [| lia].
  apply Nat.lcm_eq_0 in El. lia.
Qed.

Lemma foldl_lcm_pos (x : nat) (ys : list nat) :
  0 < x -> Forall (fun n => 0 < n) ys -> 0 < foldl Nat.lcm x ys.
Proof.
  revert x. induction ys as [|y ys IH]; simpl; intros x Hx Hys; [done |].
  inversion Hys; subst. apply IH; [by apply lcm_pos | done].
Qed.

Lemma reduce_lcm_positive (x : nat) (ys : list nat) :
  0 < x -> Forall (fun n => 0 < n) ys -> reduce_lcm x ys = Ok (foldl Nat.lcm x ys).
Proof.
  revert x. induction ys as [|y ys IH]; simpl; intros x Hx Hys; [done |].
  inversion Hys; subst. rewrite lcm_step_pos by done. simpl.
  apply IH; [by apply lcm_pos | done].
Qed.

Lemma foldl_lcm_divides (x : nat) (ys : list nat) :
  (x | foldl Nat.lcm x ys) /\ (forall n, n ∈ ys -> (n | foldl Nat.lcm x ys)).
Proof.
  revert x. induction ys as [|y ys IH]; simpl; intros x.
  - split; [reflexivity | intros n Hn; by apply elem_of_nil in Hn].
  - destruct (IH (Nat.lcm x y)) as [Hd Hall]. split.
    + etransitivity; [apply Nat.divide_lcm_l | exact Hd].
    + intros n Hn. apply elem_of_cons in Hn as [-> | Hn]; [| by apply Hall].
      etransitivity; [apply Nat.divide_lcm_r | exact Hd].
Qed.

Lemma foldl_lcm_least (x : nat) (ys : list nat) (m : nat) :
  (x | m) -> (forall n, n ∈ ys -> (n | m)) -> (foldl Nat.lcm x ys | m).
Proof.
  revert x. induction ys as [|y ys IH]; simpl; intros x Hx Hys; [done |].
  apply IH.
  - apply Nat.lcm_least; [done | apply Hys; left].
  - intros n Hn. apply Hys. by right.
Qed.

Lemma foldl_lcm_is_lcm (x : nat) (ys : list nat) :
  0 < x -> Forall (fun n => 0 < n) ys ->
  least_common_multiple (x :: ys) (foldl Nat.lcm x ys).
Proof.
  intros Hx Hys. destruct (foldl_lcm_divides x ys) as [Hd Hall].
  split; [by apply foldl_lcm_pos |]. split.
  - intros n Hn. apply elem_of_cons in Hn as [-> | Hn]; auto.
  - intros m' Hm' Hdiv. apply Nat.divide_pos_le; [lia |].
    apply foldl_lcm_least; [apply Hdiv; left | intros n Hn; apply Hdiv; by right].
Qed.

(** Once the accumulator is [0], the reduction stays at [0] until a
    second zero length makes the gcd vanish. *)
Lemma reduce_lcm_from_zero (ys : list nat) :
  reduce_lcm 0 ys = match zeros ys with 0 => Ok 0 | S _ => Raise ZeroDivisionError end.
Proof.
  induction ys as [|y ys IH]; [done |].
  cbn [reduce_lcm]. rewrite lcm_step_zero_l. destruct y as [|y].
  - done.
  - cbn [bind]. rewrite IH. unfold zeros. rewrite filter_cons_False by lia. done.
Qed.

Lemma reduce_lcm_zeros (x : nat) (ys : list nat) :
  0 < x ->
  reduce_lcm x ys =
    match zeros ys with
    | 0 => Ok (foldl Nat.lcm x ys)
    | 1 => Ok 0
    | S (S _) => Raise ZeroDivisionError
    end.
Proof.
  revert x. induction ys as [|y ys IH]; intros x Hx; [done |].
  cbn [reduce_lcm]. destruct y as [|y].
  - rewrite lcm_step_zero_r by done. cbn [bind]. rewrite reduce_lcm_from_zero.
    unfold zeros. rewrite filter_cons_True by done. simpl.
    by destruct (length (filter (fun n => n = 0) ys)).
  - rewrite lcm_step_pos by lia. cbn [bind]. rewrite IH by (apply lcm_pos; lia).
    unfold zeros. rewrite filter_cons_False by lia. done.
Qed.

Lemma zeros_none (l : list nat) :
  zeros l = 0 <-> Forall (fun n => 0 < n) l.
Proof.
  unfold zeros. induction l as [|n l IH].
  - split; [constructor | done].
  - destruct (decide (n = 0)) as [-> | Hn].
    + rewrite filter_cons_True by done. simpl. split; [done |].
      intros Hf. inversion Hf; lia.
    + rewrite filter_cons_False by done. rewrite IH. split.
      * intros Hf. constructor; [lia | done].
      * intros Hf. by inversion Hf.
Qed.
End HorizonFacts.

Section HorizonOfTau.
Context {Vertex : Type} `{Countable Vertex}.
Implicit Types (tau : @presence_map Vertex).


Lemma string_length_zero (p : string) : String.length p = 0 <-> p = "".
Proof. destruct p; simpl; split; done. Qed.

Lemma zeros_pattern_lengths tau :
  zeros (pattern_lengths tau) = empty_patterns tau.
Proof.
  unfold zeros, empty_patterns, pattern_lengths, dict_values.
  induction tau as [|[e p] tau IH]; [done |].
  rewrite !fmap_cons. simpl.
  destruct (decide (p = "")) as [-> | Hp].
  - rewrite !filter_cons_True by done. simpl. by rewrite IH.
  - rewrite (filter_cons_False _ (String.length p)).
    + rewrite (filter_cons_False _ (e, p)) by done. done.
    + by rewrite string_length_zero.
Qed.

Lemma nonempty_pattern_lengths tau :
  nonempty_patterns tau -> Forall (fun n => 0 < n) (pattern_lengths tau).
Proof.
  intros Hne. unfold pattern_lengths, dict_values.
  apply Forall_forall. intros n Hn.
  apply list_elem_of_fmap in Hn as (p & -> & Hp).
  apply list_elem_of_fmap in Hp as ([e p'] & -> & Hep). simpl.
  specialize (Hne _ _ Hep). destruct p'; [done | simpl; lia].
Qed.

Lemma time_horizon_lcm tau :
  nonempty_patterns tau ->
  exists th, time_horizon tau = Ok th /\ least_common_multiple (pattern_lengths tau) th.
Proof.
  intros Hne. apply nonempty_pattern_lengths in Hne.
  unfold time_horizon. destruct (pattern_lengths tau) as [|x ys].
  - exists 1. split; [done |]. split; [lia |]. split.
    + intros n Hn. by apply elem_of_nil in Hn.
    + intros; lia.
  - inversion Hne; subst. exists (foldl Nat.lcm x ys).
    split; [by apply reduce_lcm_positive | by apply foldl_lcm_is_lcm].
Qed.
End HorizonOfTau.

(** ** The state set *)

Lemma elem_of_concat {A : Type} (x : A) (ls : list (list A)) :
  x ∈ concat ls <-> exists l, x ∈ l /\ l ∈ ls.
Proof.
  induction ls as [|l ls IH]; simpl.
  - split; [intros Hx | intros (l & _ & Hl)]; by apply elem_of_nil in Hx || apply elem_of_nil in Hl.
  - rewrite elem_of_app, IH. split.
    + intros [Hx | (l' & Hx & Hl')]; [exists l; split; [done | left] |].
      exists l'. split; [done | by right].
    + intros (l' & Hx & Hl'). apply elem_of_cons in Hl' as [-> | Hl']; [by left |].
      right. eauto.
Qed.

Section StateFacts.
Context {Vertex : Type} `{Countable Vertex}.
Implicit Types (V : list Vertex) (st : @state Vertex).


Lemma product_elem V (n : nat) (tup : list Vertex) :
  tup ∈ product V n <-> length tup = n /\ forall x, x ∈ tup -> x ∈ V.
Proof.
  revert tup. induction n as [|n IH]; intros tup; simpl.
  - rewrite list_elem_of_singleton. split.
    + intros ->. split; [done |]. intros x Hx. by apply elem_of_nil in Hx.
    + intros [Hl _]. by destruct tup.
  - rewrite list_elem_of_bind. split.
    + intros (x & Htup & Hx). apply list_elem_of_fmap in Htup as (rest & -> & Hrest).
      apply IH in Hrest as [Hl Hall]. split; [simpl; lia |].
      intros y Hy. apply elem_of_cons in Hy as [-> | Hy]; auto.
    + intros [Hl Hall]. destruct tup as [|x rest]; [done |].
      exists x. split; [| apply Hall; left].
      apply list_elem_of_fmap. exists rest. split; [done |].
      apply IH. split; [simpl in Hl; lia |]. intros y Hy. apply Hall. by right.
Qed.

Lemma unpack_star_snoc (c : list Vertex) (r : Vertex) :
  unpack_star (c ++ [r]) = Ok (c, r).
Proof. unfold unpack_star. by rewrite last_snoc, removelast_last. Qed.

Lemma unpack_star_inv (tup c : list Vertex) (r : Vertex) :
  unpack_star tup = Ok (c, r) -> tup = c ++ [r].
Proof.
  unfold unpack_star. destruct (last tup) as [r'|] eqn:El; [| discriminate].
  apply last_Some in El as [c' ->]. rewrite removelast_last. by intros [= -> ->].
Qed.

Lemma slice_states_elem V (k : Z) (t : nat) (s : bool) (L : list (@state Vertex)) :
  slice_states V k t s = Ok L ->
  forall st, st ∈ L <->
    time st = t /\ turn st = s /\ Z.of_nat (length (cops st)) = k /\
    (forall x, x ∈ cops st -> x ∈ V) /\ robber st ∈ V.
Proof.
  unfold slice_states, product_repeat. intros HL st.
  destruct (k + 1 <? 0)%Z eqn:Ek; [discriminate |]. apply Z.ltb_ge in Ek.
  cbn [bind] in HL. rewrite (mapM_r_elem _ _ _ HL). split.
  - intros (tup & Htup & Hst). apply product_elem in Htup as [Hl Hall].
    apply bind_ok_inv in Hst as ([c r] & Hun & Hst). injection Hst as <-.
    apply unpack_star_inv in Hun as ->. simpl.
    rewrite length_app in Hl. simpl in Hl.
    repeat split; [lia | |].
    + intros x Hx. apply Hall, elem_of_app. by left.
    + apply Hall, elem_of_app. right. left.
  - intros (Ht & Hs & Hk & Hc & Hr). exists (cops st ++ [robber st]). split.
    + apply product_elem. split; [rewrite length_app; simpl; lia |].
      intros x Hx. apply elem_of_app in Hx as [Hx | Hx]; [auto |].
      apply list_elem_of_singleton in Hx as ->. done.
    + rewrite unpack_star_snoc. simpl. destruct st; simpl in *. by subst.
Qed.

Lemma slice_states_returns V (k : Z) (t : nat) (s : bool) :
  (0 <= k)%Z -> returns (slice_states V k t s).
Proof.
  intros Hk. unfold slice_states, product_repeat.
  destruct (k + 1 <? 0)%Z eqn:Ek; [apply Z.ltb_lt in Ek; lia |].
  cbn [bind]. apply mapM_r_returns. intros tup Htup.
  apply product_elem in Htup as [Hl _].
  destruct (last tup) as [r|] eqn:El.
  - apply last_Some in El as [c ->]. rewrite unpack_star_snoc. by eexists.
  - apply last_None in El as ->. simpl in Hl. lia.
Qed.

Lemma slice_states_negative V (k : Z) (t : nat) (s : bool) :
  (k < 0)%Z -> slice_states V k t s = Raise ValueError.
Proof.
  intros Hk. unfold slice_states, product_repeat.
  destruct (k + 1 <? 0)%Z eqn:Ek; [done |]. apply Z.ltb_ge in Ek.
  replace (k + 1)%Z with 0%Z by lia. reflexivity.
Qed.

Lemma game_states_elem V (th : nat) (k : Z) (L : list (@state Vertex)) :
  game_states V th k = Ok L -> forall st, st ∈ L <-> is_state V th k st.
Proof.
  unfold game_states. intros HL st.
  apply bind_ok_inv in HL as (slices & Hsl & HL). injection HL as <-.
  rewrite elem_of_concat. unfold is_state. split.
  - intros (sl & Hst & Hin).
    apply (mapM_r_elem _ _ _ Hsl) in Hin as (t & Ht & Hf).
    apply bind_ok_inv in Hf as (ss & Hss & Hf). injection Hf as <-.
    apply elem_of_concat in Hst as (x & Hst & Hx).
    destruct (proj1 (mapM_r_elem _ _ _ Hss x) Hx) as (s & _ & Hs).
    apply (slice_states_elem _ _ _ _ _ Hs) in Hst as (Htime & _ & Hk & Hc & Hr).
    apply elem_of_seq in Ht. repeat split; [lia | done..].
  - intros (Ht & Hk & Hc & Hr).
    assert (time st ∈ seq 0 th) as Hseq by (apply elem_of_seq; lia).
    destruct (mapM_r_returns (slice_states V k (time st)) [false; true]) as [ss Hss].
    { intros s _. apply slice_states_returns. lia. }
    exists (concat ss). split.
    + destruct (slice_states_returns V k (time st) (turn st)) as [x Hx]; [lia |].
      apply elem_of_concat. exists x. split.
      * by apply (slice_states_elem _ _ _ _ _ Hx).
      * apply (mapM_r_elem _ _ _ Hss). exists (turn st). split; [| done].
        destruct (turn st); [right; left | left].
    + apply (mapM_r_elem _ _ _ Hsl). exists (time st). split; [done |].
      by rewrite Hss.
Qed.

Lemma game_states_returns V (th : nat) (k : Z) :
  (0 <= k)%Z -> returns (game_states V th k).
Proof.
  intros Hk. unfold game_states.
  destruct (mapM_r_returns
    (fun t => ss <- mapM_r (slice_states V k t) [false; true] ;; Ok (concat ss))
    (seq 0 th)) as [slices Hsl].
  - intros t _.
    destruct (mapM_r_returns (slice_states V k t) [false; true]) as [ss Hss].
    + intros s _. by apply slice_states_returns.
    + rewrite Hss. by eexists.
  - rewrite Hsl. by eexists.
Qed.

Lemma game_states_negative V (th : nat) (k : Z) :
  (k < 0)%Z -> 0 < th -> game_states V th k = Raise ValueError.
Proof.
  intros Hk Hth. unfold game_states. destruct th as [|th]; [lia |].
  cbn [seq mapM_r]. by rewrite slice_states_negative.
Qed.

Lemma game_states_zero_horizon V (k : Z) : game_states V 0 k = Ok [].
Proof. reflexivity. Qed.
End StateFacts.

(** ** The arc set *)

Section ArcFacts.
Context {Vertex : Type} `{Countable Vertex}.
Implicit Types (V : list Vertex) (tau : @presence_map Vertex) (u v : @state Vertex).


Lemma cops_move_valid_spec V tau (t0 : nat) (c0 c1 : list Vertex) (slots : list nat) :
  nonempty_patterns tau ->
  (forall x, x ∈ c0 -> x ∈ V) -> (forall x, x ∈ c1 -> x ∈ V) ->
  length c0 = length c1 ->
  (forall i, i ∈ slots -> i < length c0) ->
  exists ok, cops_move_valid (adjancy V tau) (vertex_index V) t0 c0 c1 slots = Ok ok /\
    (ok = true <->
     forall i a b, i ∈ slots -> c0 !! i = Some a -> c1 !! i = Some b ->
       a = b \/ symbol_at (adjancy V tau) (vertex_index V) a b t0 <> Ok "0"%char).
Proof.
  intros Hne Hc0 Hc1 Hlen. induction slots as [|i slots IH]; intros Hslots.
  - exists true. split; [done |]. split; [| done].
    intros _ i a b Hi. by apply elem_of_nil in Hi.
  - destruct IH as (ok & Hok & Hspec); [intros j Hj; apply Hslots; by right |].
    assert (i < length c0) as Hi by (apply Hslots; left).
    destruct (lookup_lt_is_Some_2 c0 i Hi) as [a Ha].
    destruct (lookup_lt_is_Some_2 c1 i) as [b Hb]; [lia |].
    assert (a ∈ V) as HaV by (apply Hc0; eapply list_elem_of_lookup_2; exact Ha).
    assert (b ∈ V) as HbV by (apply Hc1; eapply list_elem_of_lookup_2; exact Hb).
    cbn [cops_move_valid]. unfold subscript_list. rewrite Ha, Hb. cbn [bind].
    case_bool_decide as Hab.
    + destruct (symbol_at_returns V tau a b t0 Hne HaV HbV) as [c Hc].
      rewrite Hc. cbn [bind]. case_bool_decide as Hzero.
      * exists false. split; [done |]. split; [done |]. intros Hall.
        destruct (Hall i a b) as [? | Hn]; [left | done | done | done |].
        exfalso. apply Hn. by rewrite Hc, Hzero.
      * exists ok. split; [done |]. rewrite Hspec. split.
        -- intros Hall j a' b' Hj Ha' Hb'. apply elem_of_cons in Hj as [-> | Hj].
           ++ right. rewrite Ha in Ha'. rewrite Hb in Hb'.
              injection Ha' as <-. injection Hb' as <-. rewrite Hc. congruence.
           ++ by apply (Hall j).
        -- intros Hall j a' b' Hj. apply Hall. by right.
    + exists ok. split; [done |]. rewrite Hspec. split.
      * intros Hall j a' b' Hj Ha' Hb'. apply elem_of_cons in Hj as [-> | Hj].
        -- left. rewrite Ha in Ha'. rewrite Hb in Hb'.
           injection Ha' as <-. injection Hb' as <-.
           destruct (decide (a = b)); [done | tauto].
        -- by apply (Hall j).
      * intros Hall j a' b' Hj. apply Hall. by right.
Qed.

Lemma add_to_arcs_ok_iff (G : list string) adjancy (vertex_index : gmap Vertex nat)
    (th : nat) u v (b : bool) :
  add_to_arcs G adjancy vertex_index th u v = Ok b <->
  add_to_arcs_try adjancy vertex_index th u v = Ok b.
Proof.
  unfold add_to_arcs. destruct (add_to_arcs_try adjancy vertex_index th u v) as [b'|e].
  - done.
  - split; [| done]. unfold resolve. by case_bool_decide.
Qed.

(** A capture source returns at once, whatever the rest of the pair. *)
Lemma add_to_arcs_try_capture adjancy (vertex_index : gmap Vertex nat) (th : nat) u v :
  robber u ∈ cops u -> add_to_arcs_try adjancy vertex_index th u v = Ok false.
Proof. intros Hcap. unfold add_to_arcs_try. by rewrite bool_decide_eq_true_2. Qed.

Lemma add_to_arcs_try_returns V tau (th : nat) (k : Z) u v :
  nonempty_patterns tau -> is_state V th k u -> is_state V th k v ->
  returns (add_to_arcs_try (adjancy V tau) (vertex_index V) th u v).
Proof.
  intros Hne (Htu & Hku & Hcu & Hru) (Htv & Hkv & Hcv & Hrv).
  unfold add_to_arcs_try. case_bool_decide; [by eexists |].
  match goal with |- returns (if ?c then _ else _) => destruct c end.
  - destruct (cops_move_valid_spec V tau (time u) (cops u) (cops v)
      (seq 0 (length (cops u))) Hne Hcu Hcv) as (ok & Hok & _); [lia | |].
    + intros i Hi. apply elem_of_seq in Hi. lia.
    + rewrite Hok. by eexists.
  - unfold py_mod. destruct th as [|th]; [lia |]. cbn [bind].
    match goal with |- returns (if ?c then _ else _) => destruct c end; [| by eexists].
    case_bool_decide; [by eexists |].
    destruct (symbol_at_returns V tau (robber u) (robber v) (time u) Hne Hru Hrv) as [c Hc].
    rewrite Hc. by eexists.
Qed.

Lemma add_to_arcs_try_cop V tau (th : nat) (k : Z) u v :
  nonempty_patterns tau -> binary_patterns tau ->
  is_state V th k u -> is_state V th k v -> turn u = false ->
  add_to_arcs_try (adjancy V tau) (vertex_index V) th u v = Ok true <->
  cop_move_legal (adjancy V tau) (vertex_index V) u v.
Proof.
  intros Hne Hbin (Htu & Hku & Hcu & Hru) (Htv & Hkv & Hcv & Hrv) Hs0.
  unfold add_to_arcs_try, cop_move_legal. rewrite Hs0. cbn [negb].
  case_bool_decide as Hcap.
  { split; [done | intros (_ & _ & _ & _ & Hn & _); done]. }
  destruct (cops_move_valid_spec V tau (time u) (cops u) (cops v)
    (seq 0 (length (cops u))) Hne Hcu Hcv) as (ok & Hok & Hspec); [lia | |].
  { intros i Hi. apply elem_of_seq in Hi. lia. }
  case_bool_decide as Ht; cbn [andb].
  - destruct (turn v) eqn:Hs1; cbn [andb].
    + case_bool_decide as Hr; cbn [andb].
      * rewrite Hok. split.
        -- intros [= ->]. repeat split; [done.. |].
           intros i a b Ha Hb.
           destruct (proj1 Hspec eq_refl i a b) as [? | Hsym]; [| done | done | by left |].
           { apply elem_of_seq. apply lookup_lt_Some in Ha. lia. }
           right. unfold present.
           assert (a ∈ V) as HaV by (apply Hcu; eapply list_elem_of_lookup_2; exact Ha).
           assert (b ∈ V) as HbV by (apply Hcv; eapply list_elem_of_lookup_2; exact Hb).
           destruct (symbol_at_returns V tau a b (time u) Hne HaV HbV) as [c Hc].
           destruct (symbol_at_binary V tau a b (time u) c Hbin HaV HbV Hc) as [-> | ->];
             [by rewrite Hc in Hsym | done].
        -- intros (_ & _ & _ & _ & _ & Hall). f_equal. apply Hspec.
           intros i a b _ Ha Hb. destruct (Hall i a b Ha Hb) as [? | Hp]; [by left |].
           right. unfold present in Hp. rewrite Hp. discriminate.
      * unfold py_mod. destruct th as [|th]; [lia |]. cbn [bind].
        rewrite andb_false_r. cbn [andb].
        split; [done | intros (_ & _ & _ & Hr' & _); by rewrite Hr' in Hr].
    + unfold py_mod. destruct th as [|th]; [lia |]. cbn [bind].
      rewrite andb_false_r. cbn [andb]. split; [done | intros (_ & ? & _); done].
  - unfold py_mod. destruct th as [|th]; [lia |]. cbn [bind].
    rewrite andb_false_r. cbn [andb].
    split; [done | intros (_ & _ & Ht' & _); by rewrite Ht' in Ht].
Qed.

Lemma add_to_arcs_try_robber V tau (th : nat) (k : Z) u v :
  nonempty_patterns tau ->
  is_state V th k u -> is_state V th k v -> turn u = true ->
  add_to_arcs_try (adjancy V tau) (vertex_index V) th u v = Ok true <->
  robber_move_legal (adjancy V tau) (vertex_index V) th u v.
Proof.
  intros Hne (Htu & Hku & Hcu & Hru) (Htv & Hkv & Hcv & Hrv) Hs0.
  unfold add_to_arcs_try, robber_move_legal. rewrite Hs0. cbn [negb].
  case_bool_decide as Hcap.
  { split; [done | intros (_ & _ & _ & _ & Hn & _); done]. }
  rewrite andb_false_r. cbn [andb].
  unfold py_mod. destruct th as [|th]; [lia |]. cbn [bind andb].
  case_bool_decide as Ht; cbn [andb];
    [| split; [done | intros (_ & _ & Ht' & _); by rewrite Ht' in Ht]].
  destruct (turn v) eqn:Hs1; cbn [negb andb];
    [split; [done | intros (_ & ? & _); done] |].
  case_bool_decide as Hc; cbn [andb];
    [| split; [done | intros (_ & _ & _ & Hc' & _); by rewrite Hc' in Hc]].
  case_bool_decide as Hr1; cbn [andb];
    [| split; [done | intros (_ & _ & _ & _ & _ & Hn & _); done]].
  case_bool_decide as Hr.
  - split; [| done]. intros _. repeat split; [done.. | by left].
  - destruct (symbol_at_returns V tau (robber u) (robber v) (time u) Hne Hru Hrv) as [c Hsym].
    unfold present. rewrite Hsym. cbn [bind]. case_bool_decide as Hone.
    + split; [| done]. intros _. repeat split; [done.. |]. right. by rewrite Hone.
    + split; [done |]. intros (_ & _ & _ & _ & _ & _ & [Hr' | Hp]); [done |].
      injection Hp as ->. done.
Qed.

Lemma game_arcs_elem (G : list string) adjancy (vertex_index : gmap Vertex nat) (th : nat)
    (V_gg : list (@state Vertex)) (A_gg : list (@arc Vertex)) :
  game_arcs G adjancy vertex_index th V_gg = Ok A_gg ->
  forall u v, (u, v) ∈ A_gg <->
    u ∈ V_gg /\ v ∈ V_gg /\ add_to_arcs_try adjancy vertex_index th u v = Ok true.
Proof.
  unfold game_arcs. intros HA u v.
  rewrite (filterM_r_elem _ _ _ HA). cbn [fst snd].
  rewrite add_to_arcs_ok_iff. split.
  - intros [Huv Hadd]. apply list_elem_of_cprod in Huv as [Hu Hv]. done.
  - intros (Hu & Hv & Hadd). split; [| done]. by apply list_elem_of_cprod.
Qed.

Lemma game_arcs_returns (G : list string) V tau (th : nat) (k : Z)
    (V_gg : list (@state Vertex)) :
  nonempty_patterns tau -> game_states V th k = Ok V_gg ->
  returns (game_arcs G (adjancy V tau) (vertex_index V) th V_gg).
Proof.
  intros Hne HV. unfold game_arcs. apply filterM_r_returns. intros [u v] Huv.
  apply list_elem_of_cprod in Huv as [Hu Hv]. simpl in *.
  apply (game_states_elem _ _ _ _ HV) in Hu, Hv.
  destruct (add_to_arcs_try_returns V tau th k u v Hne Hu Hv) as [b Hb].
  exists b. by apply add_to_arcs_ok_iff.
Qed.
End ArcFacts.

(** ** The arena and the classification of the attractor *)

Section ArenaFacts.
Context {Vertex : Type} `{Countable Vertex}.
Implicit Types (V : list Vertex) (st v : @state Vertex).

Lemma partition_fold (V_gg S0 S1 F : list (@state Vertex)) :
  foldl partition_step (S0, S1, F) V_gg =
    (S0 ++ filter (fun v => turn v = false) V_gg,
     S1 ++ filter (fun v => turn v = true) V_gg,
     F ++ filter (fun v => robber v ∈ cops v) V_gg).
Proof.
  revert S0 S1 F. induction V_gg as [|v V_gg IH]; intros S0 S1 F.
  - simpl. by rewrite !app_nil_r.
  - cbn [foldl]. unfold partition_step at 2.
    destruct (turn v) eqn:Hs; rewrite IH.
    + rewrite (filter_cons_False _ v) by (rewrite Hs; done).
      rewrite (filter_cons_True (fun v => turn v = true) v) by done.
      case_bool_decide.
      * rewrite (filter_cons_True (fun v => robber v ∈ cops v) v) by done.
        by rewrite <- !app_assoc.
      * rewrite (filter_cons_False (fun v => robber v ∈ cops v) v) by done.
        by rewrite <- !app_assoc.
    + rewrite (filter_cons_True (fun v => turn v = false) v) by done.
      rewrite (filter_cons_False (fun v => turn v = true) v) by (rewrite Hs; done).
      case_bool_decide.
      * rewrite (filter_cons_True (fun v => robber v ∈ cops v) v) by done.
        by rewrite <- !app_assoc.
      * rewrite (filter_cons_False (fun v => robber v ∈ cops v) v) by done.
        by rewrite <- !app_assoc.
Qed.

Lemma turn_split_permutation (V_gg : list (@state Vertex)) :
  filter (fun v => turn v = false) V_gg ++ filter (fun v => turn v = true) V_gg ≡ₚ V_gg.
Proof.
  induction V_gg as [|v V_gg IH]; [done |].
  destruct (turn v) eqn:Hs.
  - rewrite (filter_cons_False _ v) by (rewrite Hs; done).
    rewrite (filter_cons_True (fun v => turn v = true) v) by done.
    rewrite <- Permutation_middle. by constructor.
  - rewrite (filter_cons_True (fun v => turn v = false) v) by done.
    rewrite (filter_cons_False (fun v => turn v = true) v) by (rewrite Hs; done).
    simpl. by constructor.
Qed.


Lemma starting_classes_step_inv (m : gmap (list Vertex) (gset Vertex))
    (att : list (@state Vertex)) st :
  classes_of m att -> classes_of (starting_classes_step m st) (att ++ [st]).
Proof.
  intros Hinv c. unfold starting_classes_step.
  assert (forall r, State c r false 0 ∈ att ++ [st] <->
            State c r false 0 ∈ att \/ State c r false 0 = st) as Hsnoc.
  { intros r. rewrite elem_of_app, list_elem_of_singleton. done. }
  specialize (Hinv c) as Hc.
  destruct (bool_decide (time st = 0) && negb (turn st)) eqn:Estart.
  - apply andb_true_iff in Estart as [Ht Hs].
    apply bool_decide_eq_true in Ht. apply negb_true_iff in Hs.
    assert (st = State (cops st) (robber st) false 0) as Hst.
    { destruct st; simpl in *. by subst. }
    destruct (decide (c = cops st)) as [-> | Hne].
    + case_bool_decide as Hnone.
      * rewrite lookup_alter_eq, lookup_insert_eq. simpl. rewrite Hnone in Hc.
        split; [exists (robber st); apply elem_of_union; right; by apply elem_of_singleton |].
        intros r. rewrite Hsnoc, elem_of_union, elem_of_singleton. split.
        -- intros [Hr | ->]; [by apply not_elem_of_empty in Hr | right; done].
        -- intros [Hr | Hr]; [by apply Hc in Hr |]. right.
           rewrite Hst in Hr. by injection Hr.
      * rewrite lookup_alter_eq.
        destruct (m !! cops st) as [R|] eqn:Em; [| done]. simpl.
        destruct Hc as [Hex Hc]. split; [exists (robber st); apply elem_of_union; right; by apply elem_of_singleton |].
        intros r. rewrite Hsnoc, elem_of_union, elem_of_singleton, Hc. split.
        -- intros [Hr | ->]; [by left | right; done].
        -- intros [Hr | Hr]; [by left |]. right. rewrite Hst in Hr. by injection Hr.
    + assert (forall r, State c r false 0 <> st) as Hdiff.
      { intros r Hr. apply Hne. by rewrite <- Hr. }
      rewrite lookup_alter_ne by done.
      case_bool_decide; [rewrite lookup_insert_ne by done |];
        (destruct (m !! c) as [R|];
          [destruct Hc as [Hex Hc]; split; [done |]; intros r; rewrite Hsnoc, Hc;
             specialize (Hdiff r); tauto
          | intros r; rewrite Hsnoc; specialize (Hc r); specialize (Hdiff r); tauto]).
  - assert (forall r, State c r false 0 <> st) as Hdiff.
    { intros r Hr. rewrite <- Hr in Estart. done. }
    destruct (m !! c) as [R|].
    + destruct Hc as [Hex Hc]. split; [done |]. intros r. rewrite Hsnoc, Hc.
      specialize (Hdiff r). tauto.
    + intros r. rewrite Hsnoc. specialize (Hc r). specialize (Hdiff r). tauto.
Qed.

Lemma starting_classes_inv (att : list (@state Vertex)) :
  classes_of (starting_classes att) att.
Proof.
  unfold starting_classes. induction att as [|st att IH] using rev_ind.
  - intros c. simpl. rewrite lookup_empty. intros r Hr. by apply elem_of_nil in Hr.
  - rewrite foldl_snoc. by apply starting_classes_step_inv.
Qed.

Lemma kcop_verdict_true (n : nat) (att : list (@state Vertex)) :
  kcop_verdict n att = true <->
  exists c R, starting_classes att !! c = Some R /\ size R = n.
Proof.
  unfold kcop_verdict. rewrite existsb_exists. split.
  - intros ([c R] & Hin & Hsz). apply list_elem_of_In, elem_of_map_to_list in Hin.
    apply bool_decide_eq_true in Hsz. by exists c, R.
  - intros (c & R & Hm & Hsz). exists (c, R). split.
    + by apply list_elem_of_In, elem_of_map_to_list.
    + by apply bool_decide_eq_true.
Qed.
End ArenaFacts.

(** ** Running [get_game_graph] *)

Section RunFacts.
Context {Vertex : Type} `{Countable Vertex}.
Implicit Types (V : list Vertex) (E : list (@edge Vertex)) (tau : option (@presence_map Vertex)).

Lemma resolve_bound (G : list string) (x : string) : x ∈ G -> resolve G x = Ok tt.
Proof. intros Hx. unfold resolve. by rewrite bool_decide_eq_true_2. Qed.

Lemma resolve_mp_module : resolve module_namespace "mp" = Raise NameError.
Proof. reflexivity. Qed.

(** With [mp] bound the function is the composition of its stages. *)
Lemma get_game_graph_resolved (G : list string) V E tau (k : Z) :
  "mp" ∈ G ->
  get_game_graph G V E tau k =
    (th <- time_horizon (effective_tau E tau) ;;
     V_gg <- game_states V th k ;;
     A_gg <- game_arcs G (adjancy V (effective_tau E tau)) (vertex_index V) th V_gg ;;
     Ok (V_gg, A_gg)).
Proof.
  intros Hmp. unfold get_game_graph.
  destruct (time_horizon (effective_tau E tau)) as [th|e]; [| done]. cbn [bind].
  destruct (game_states V th k) as [V_gg|e]; [| done]. cbn [bind].
  by rewrite (resolve_bound G "mp" Hmp).
Qed.

(** In the module as written the stages before line 84 decide which
    exception comes out; none of them lets the call return. *)
Lemma get_game_graph_module V E tau (k : Z) :
  get_game_graph module_namespace V E tau k =
    (th <- time_horizon (effective_tau E tau) ;;
     V_gg <- game_states V th k ;;
     Raise NameError).
Proof.
  unfold get_game_graph.
  destruct (time_horizon (effective_tau E tau)) as [th|e]; [| done]. cbn [bind].
  destruct (game_states V th k) as [V_gg|e]; [| done]. cbn [bind].
  by rewrite resolve_mp_module.
Qed.

Lemma static_tau_fold E (d : @presence_map Vertex) (e : @edge Vertex) :
  dict_get (foldl (fun d e => dict_set d e "1") d E) e =
    if decide (e ∈ E) then Some "1" else dict_get d e.
Proof.
  revert d. induction E as [|e' E IH]; intros d; cbn [foldl].
  - rewrite decide_False; [done | apply not_elem_of_nil].
  - rewrite IH, dict_get_set. destruct (decide (e ∈ E)) as [Hin | Hout].
    + rewrite decide_True; [done | by right].
    + destruct (decide (e = e')) as [-> | Hne].
      * rewrite decide_True; [done | left].
      * rewrite decide_False; [done |]. intros Hin. by apply elem_of_cons in Hin as [? | ?].
Qed.

Lemma static_tau_entry E (a b : Vertex) :
  (a, b) ∈ E ->
  adjancy_entry (static_tau E) a b = "1" /\ adjancy_entry (static_tau E) b a = "1".
Proof.
  intros Hin. unfold adjancy_entry, static_tau. rewrite !static_tau_fold.
  split; repeat case_decide; done.
Qed.

Lemma static_tau_patterns E (e : @edge Vertex) (p : string) :
  (e, p) ∈ static_tau E -> p = "1".
Proof.
  unfold static_tau. assert (forall d : @presence_map Vertex,
    (forall e p, (e, p) ∈ d -> p = "1") ->
    forall e p, (e, p) ∈ foldl (fun d e => dict_set d e "1") d E -> p = "1") as Hgen.
  { induction E as [|e' E IH]; intros d Hd; cbn [foldl]; [done |].
    apply IH. clear IH. induction d as [|[k0 v0] d IHd]; simpl.
    - intros e0 p0 H0. apply list_elem_of_singleton in H0. congruence.
    - destruct (decide (e' = k0)) as [-> | Hne]; intros e0 p0 H0;
        apply elem_of_cons in H0 as [H0 | H0].
      + congruence.
      + apply (Hd e0). by right.
      + apply (Hd e0). rewrite H0. left.
      + apply (IHd (fun e p Hin => Hd e p (list_elem_of_further _ _ _ Hin)) e0 p0 H0). }
  apply Hgen. intros e0 p0 H0. by apply elem_of_nil in H0.
Qed.

Lemma static_tau_nonempty E : nonempty_patterns (effective_tau E None).
Proof. intros e p Hin. by rewrite (static_tau_patterns E e p Hin). Qed.

Lemma static_tau_binary E : binary_patterns (effective_tau E None).
Proof.
  intros e p Hin i c. rewrite (static_tau_patterns E e p Hin).
  destruct i as [|i]; simpl; [intros [= <-]; by right | discriminate].
Qed.

(** Without cops the loop of the cops' move has nothing to check. *)
Lemma add_to_arcs_no_cops (G : list string) (adjancy : list (list string))
    (vertex_index : gmap Vertex nat) (th t : nat) (r : Vertex) :
  add_to_arcs G adjancy vertex_index th (State [] r false t) (State [] r true t) = Ok true.
Proof.
  apply add_to_arcs_ok_iff. unfold add_to_arcs_try. cbn [cops robber turn time].
  rewrite bool_decide_eq_false_2 by apply not_elem_of_nil.
  rewrite (bool_decide_eq_true_2 (t = t)) by done.
  rewrite (bool_decide_eq_true_2 (r = r)) by done. reflexivity.
Qed.
End RunFacts.

(** ** Presence read from [tau] *)

Section PresenceFromTau.
Context {Vertex : Type} `{Countable Vertex}.
Implicit Types (V : list Vertex) (tau : @presence_map Vertex).

Lemma dict_get_first tau (key : @edge Vertex) (p : string) :
  dict_get tau key = Some p <-> tau_pattern tau key p.
Proof.
  unfold tau_pattern. induction tau as [|[k0 p0] tau IH]; simpl.
  - split; [discriminate |]. intros (l1 & l2 & Heq & _). by destruct l1.
  - destruct (decide (key = k0)) as [-> | Hne].
    + split.
      * intros [= ->]. exists [], tau. split; [done |]. intros q. apply not_elem_of_nil.
      * intros (l1 & l2 & Heq & Hfirst). destruct l1 as [|x l1].
        -- simpl in Heq. by injection Heq as -> _.
        -- simpl in Heq. injection Heq as <- _. destruct (Hfirst p0). left.
    + rewrite IH. split.
      * intros (l1 & l2 & -> & Hfirst). exists ((k0, p0) :: l1), l2. split; [done |].
        intros q Hin. apply elem_of_cons in Hin as [[= -> _] | Hin]; [done |].
        by apply (Hfirst q).
      * intros (l1 & l2 & Heq & Hfirst). destruct l1 as [|x l1].
        -- simpl in Heq. injection Heq as -> _. done.
        -- simpl in Heq. injection Heq as <- ->. exists l1, l2. split; [done |].
           intros q Hin. apply (Hfirst q). by right.
Qed.

Lemma dict_get_unmapped tau (key : @edge Vertex) :
  dict_get tau key = None <-> tau_unmapped tau key.
Proof.
  unfold tau_unmapped. induction tau as [|[k0 p0] tau IH]; simpl.
  - split; [| done]. intros _ q. apply not_elem_of_nil.
  - destruct (decide (key = k0)) as [-> | Hne].
    + split; [discriminate |]. intros Hun. destruct (Hun p0). left.
    + rewrite IH. split.
      * intros Hun q Hin. apply elem_of_cons in Hin as [[= -> _] | Hin]; [done |].
        by apply (Hun q).
      * intros Hun q Hin. apply (Hun q). by right.
Qed.

(** On vertices of [V], the symbol the code reads is ['1'] exactly when
    the pattern that [tau] gives the pair shows ['1'] at that step. *)
Lemma present_iff_edge_present V tau (a b : Vertex) (t : nat) :
  a ∈ V -> b ∈ V ->
  (present (adjancy V tau) (vertex_index V) a b t <-> edge_present tau a b t).
Proof.
  intros Ha Hb. unfold present, edge_present. rewrite symbol_at_adjancy by done.
  unfold adjancy_entry, py_mod, subscript_str.
  destruct (dict_get tau (b, a)) as [p|] eqn:Eba.
  - apply dict_get_first in Eba as Hp. split.
    + intros Hsym. exists p. split; [by left |].
      destruct (String.length p) as [|n] eqn:El; [discriminate |]. cbn [bind] in Hsym.
      destruct (String.get (t mod S n) p); [by injection Hsym as -> | discriminate].
    + intros (p' & [Hp' | [Hun _]] & Hget).
      * apply dict_get_first in Hp'. rewrite Eba in Hp'. injection Hp' as <-.
        destruct (String.length p) as [|n] eqn:El.
        -- destruct p; [by destruct t | discriminate].
        -- cbn [bind]. by rewrite Hget.
      * apply dict_get_unmapped in Hun. congruence.
  - apply dict_get_unmapped in Eba as Hun.
    destruct (dict_get tau (a, b)) as [p|] eqn:Eab.
    + apply dict_get_first in Eab as Hp. split.
      * intros Hsym. exists p. split; [by right |].
        destruct (String.length p) as [|n] eqn:El; [discriminate |]. cbn [bind] in Hsym.
        destruct (String.get (t mod S n) p); [by injection Hsym as -> | discriminate].
      * intros (p' & [Hp' | [_ Hp']] & Hget).
        -- apply dict_get_first in Hp'. congruence.
        -- apply dict_get_first in Hp'. rewrite Eab in Hp'. injection Hp' as <-.
           destruct (String.length p) as [|n] eqn:El.
           ++ destruct p; [by destruct t | discriminate].
           ++ cbn [bind]. by rewrite Hget.
    + split.
      * simpl. intros Hsym. discriminate.
      * intros (p' & [Hp' | [_ Hp']] & _); apply dict_get_first in Hp'; congruence.
Qed.
End PresenceFromTau.

(** * Main results *)

Section MainResults.
Context {Vertex : Type} `{Countable Vertex}.
Implicit Types (V : list Vertex) (E : list (@edge Vertex)) (tau : option (@presence_map Vertex)).
Implicit Types (u v st : @state Vertex).

(** C3: between two states [u = (c0, r0, s0, t0)] and [v = (c1, r1, s1, t1)]
    of the game graph, the arc set holds the cops' move [(u, v)] exactly
    when [s0] is false, [s1] is true, [t1 = t0], [r1 = r0], [r0] is not
    among [c0], and every cop slot either stays or follows an edge whose
    pattern in [tau] shows ['1'] at index [t0] modulo its length. The arc
    set holds a pair exactly when [add_to_arcs] accepts it. Patterns are
    the data model's: non-empty and binary. *)
Theorem cop_move_arcs (G : list string) V E tau (k : Z) (th : nat)
    (V_gg : list (@state Vertex)) u v :
  nonempty_patterns (effective_tau E tau) ->
  binary_patterns (effective_tau E tau) ->
  time_horizon (effective_tau E tau) = Ok th ->
  game_states V th k = Ok V_gg ->
  u ∈ V_gg -> v ∈ V_gg ->
  exists A_gg,
    game_arcs G (adjancy V (effective_tau E tau)) (vertex_index V) th V_gg = Ok A_gg /\
    ((u, v) ∈ A_gg /\ turn u = false <->
     turn u = false /\ turn v = true /\ time v = time u /\ robber v = robber u /\
     (robber u ∉ cops u) /\
     forall i a b, cops u !! i = Some a -> cops v !! i = Some b ->
       a = b \/ edge_present (effective_tau E tau) a b (time u)) /\
    ((u, v) ∈ A_gg <->
     add_to_arcs G (adjancy V (effective_tau E tau)) (vertex_index V) th u v = Ok true).
Proof.
  intros Hne Hbin _ HV Hu Hv.
  destruct (game_arcs_returns G V (effective_tau E tau) th k V_gg Hne HV) as [A_gg HA].
  exists A_gg. split; [done |].
  pose proof (proj1 (game_states_elem _ _ _ _ HV u) Hu) as Hsu.
  pose proof (proj1 (game_states_elem _ _ _ _ HV v) Hv) as Hsv.
  assert (forall i a b, cops u !! i = Some a -> cops v !! i = Some b ->
            (present (adjancy V (effective_tau E tau)) (vertex_index V) a b (time u) <->
             edge_present (effective_tau E tau) a b (time u))) as Hbridge.
  { intros i a b Ha Hb. apply present_iff_edge_present.
    - destruct Hsu as (_ & _ & Hcu & _). apply Hcu. by eapply list_elem_of_lookup_2.
    - destruct Hsv as (_ & _ & Hcv & _). apply Hcv. by eapply list_elem_of_lookup_2. }
  split.
  - rewrite (game_arcs_elem _ _ _ _ _ _ HA). split.
    + intros [(_ & _ & Hadd) Hs0].
      apply (add_to_arcs_try_cop V _ th k u v Hne Hbin Hsu Hsv Hs0) in Hadd
        as (_ & Hs1 & Ht & Hr & Hcap & Hall).
      repeat split; [done.. |]. intros i a b Ha Hb.
      destruct (Hall i a b Ha Hb) as [? | Hp]; [by left |].
      right. by apply (Hbridge i a b Ha Hb).
    + intros (Hs0 & Hs1 & Ht & Hr & Hcap & Hall).
      split; [| done]. split; [done |]. split; [done |].
      apply (add_to_arcs_try_cop V _ th k u v Hne Hbin Hsu Hsv Hs0).
      repeat split; [done.. |]. intros i a b Ha Hb.
      destruct (Hall i a b Ha Hb) as [? | Hp]; [by left |].
      right. by apply (Hbridge i a b Ha Hb).
  - rewrite (game_arcs_elem _ _ _ _ _ _ HA), add_to_arcs_ok_iff. tauto.
Qed.

(** C4: between two states of the game graph, the arc set holds the
    robber's move [(u, v)] exactly when [s0] is true, [s1] is false,
    [t1 = (t0 + 1) mod time_horizon], [c1 = c0], [r0] is not among [c0],
    [r1] is not among [c1], and the robber stays or follows an edge whose
    pattern in [tau] shows ['1'] at index [t0] modulo its length. The arc
    set holds a pair exactly when [add_to_arcs] accepts it. *)
Theorem robber_move_arcs (G : list string) V E tau (k : Z) (th : nat)
    (V_gg : list (@state Vertex)) u v :
  nonempty_patterns (effective_tau E tau) ->
  time_horizon (effective_tau E tau) = Ok th ->
  game_states V th k = Ok V_gg ->
  u ∈ V_gg -> v ∈ V_gg ->
  exists A_gg,
    game_arcs G (adjancy V (effective_tau E tau)) (vertex_index V) th V_gg = Ok A_gg /\
    ((u, v) ∈ A_gg /\ turn u = true <->
     turn u = true /\ turn v = false /\ time v = (time u + 1) mod th /\
     cops v = cops u /\ (robber u ∉ cops u) /\ (robber v ∉ cops v) /\
     (robber v = robber u \/
      edge_present (effective_tau E tau) (robber u) (robber v) (time u))) /\
    ((u, v) ∈ A_gg <->
     add_to_arcs G (adjancy V (effective_tau E tau)) (vertex_index V) th u v = Ok true).
Proof.
  intros Hne _ HV Hu Hv.
  destruct (game_arcs_returns G V (effective_tau E tau) th k V_gg Hne HV) as [A_gg HA].
  exists A_gg. split; [done |].
  pose proof (proj1 (game_states_elem _ _ _ _ HV u) Hu) as Hsu.
  pose proof (proj1 (game_states_elem _ _ _ _ HV v) Hv) as Hsv.
  assert (present (adjancy V (effective_tau E tau)) (vertex_index V)
            (robber u) (robber v) (time u) <->
          edge_present (effective_tau E tau) (robber u) (robber v) (time u)) as Hbridge.
  { apply present_iff_edge_present; [apply Hsu | apply Hsv]. }
  split.
  - rewrite (game_arcs_elem _ _ _ _ _ _ HA). split.
    + intros [(_ & _ & Hadd) Hs0].
      apply (add_to_arcs_try_robber V _ th k u v Hne Hsu Hsv Hs0) in Hadd
        as (_ & Hs1 & Ht & Hc & Hcap0 & Hcap1 & Hmove).
      repeat split; [done.. |]. destruct Hmove as [? | Hp]; [by left |].
      right. by apply Hbridge.
    + intros (Hs0 & Hs1 & Ht & Hc & Hcap0 & Hcap1 & Hmove).
      split; [| done]. split; [done |]. split; [done |].
      apply (add_to_arcs_try_robber V _ th k u v Hne Hsu Hsv Hs0).
      repeat split; [done.. |]. destruct Hmove as [? | Hp]; [by left |].
      right. by apply Hbridge.
  - rewrite (game_arcs_elem _ _ _ _ _ _ HA), add_to_arcs_ok_iff. tauto.
Qed.

(** C9: a capture state, one whose robber stands on some cop, is the
    source of no arc: [add_to_arcs] answers [False] for every pair that
    starts there, whatever the turn flag and the time, so no arc set built
    from any state list contains such a pair. *)
Theorem capture_state_no_out_arc (G : list string) (adjancy : list (list string))
    (vertex_index : gmap Vertex nat) (th : nat) (V_gg : list (@state Vertex)) u v :
  robber u ∈ cops u ->
  add_to_arcs G adjancy vertex_index th u v = Ok false /\
  forall A_gg, game_arcs G adjancy vertex_index th V_gg = Ok A_gg -> (u, v) ∉ A_gg.
Proof.
  intros Hcap.
  pose proof (add_to_arcs_try_capture adjancy vertex_index th u v Hcap) as Htry.
  split; [by apply add_to_arcs_ok_iff |].
  intros A_gg HA Hin. apply (game_arcs_elem _ _ _ _ _ _ HA) in Hin as (_ & _ & Hadd).
  congruence.
Qed.

(** C10: the arena [(S0, S1, A, F)] of a game graph has [S0] the states
    with a false turn flag and [S1] those with a true one, so that the two
    are disjoint and together are a rearrangement of [V_gg]; [F] is the
    states whose robber is among the cops, whatever turn and time; and [A]
    is the arc list itself. *)
Theorem arena_partition (V_gg : list (@state Vertex)) (A_gg : list (@arc Vertex)) :
  exists S0 S1 F,
    game_graph_to_reachability_game V_gg A_gg = (S0, S1, A_gg, F) /\
    (forall v, v ∈ S0 <-> v ∈ V_gg /\ turn v = false) /\
    (forall v, v ∈ S1 <-> v ∈ V_gg /\ turn v = true) /\
    (forall v, v ∈ F <-> v ∈ V_gg /\ robber v ∈ cops v) /\
    (forall v, v ∈ S0 -> v ∉ S1) /\
    S0 ++ S1 ≡ₚ V_gg.
Proof.
  exists (filter (fun v => turn v = false) V_gg), (filter (fun v => turn v = true) V_gg),
         (filter (fun v => robber v ∈ cops v) V_gg).
  split; [unfold game_graph_to_reachability_game; by rewrite partition_fold |].
  split; [intros v; rewrite list_elem_of_filter; tauto |].
  split; [intros v; rewrite list_elem_of_filter; tauto |].
  split; [intros v; rewrite list_elem_of_filter; tauto |].
  split; [| apply turn_split_permutation].
  intros v Hv0 Hv1. apply list_elem_of_filter in Hv0 as [Hf _].
  apply list_elem_of_filter in Hv1 as [Ht _]. congruence.
Qed.
(** C8: when every pattern is non-empty the horizon is the least common
    multiple of the lengths of the patterns of [tau]: it is positive,
    the length of every pattern that [tau] holds divides it, and it is
    the smallest such number; it is [1] for an empty [tau]. It is the
    bound of the time loop of [V_gg]: every state has a time index below
    it, and on a non-empty vertex list every index below it occurs. *)
Theorem time_horizon_is_lcm V E tau (k : Z) :
  nonempty_patterns (effective_tau E tau) ->
  exists th,
    time_horizon (effective_tau E tau) = Ok th /\
    0 < th /\
    (forall e p, (e, p) ∈ effective_tau E tau -> (String.length p | th)) /\
    (forall m, 0 < m ->
       (forall e p, (e, p) ∈ effective_tau E tau -> (String.length p | m)) -> th <= m) /\
    (effective_tau E tau = [] -> th = 1) /\
    ((0 <= k)%Z ->
     exists V_gg, game_states V th k = Ok V_gg /\
       (forall st, st ∈ V_gg -> time st < th) /\
       (V <> [] -> forall t, t < th -> exists st, st ∈ V_gg /\ time st = t)).
Proof.
  intros Hne. destruct (time_horizon_lcm _ Hne) as (th & Hth & Hpos & Hdiv & Hleast).
  assert (forall m, (forall e p, (e, p) ∈ effective_tau E tau -> (String.length p | m)) ->
            forall n, n ∈ pattern_lengths (effective_tau E tau) -> (n | m)) as Hlengths.
  { intros m Hm n Hn. unfold pattern_lengths, dict_values in Hn.
    apply list_elem_of_fmap in Hn as (p & -> & Hp).
    apply list_elem_of_fmap in Hp as ([e p'] & -> & Hep). by apply (Hm e). }
  exists th. split; [done |]. split; [done |]. split; [| split; [| split]].
  - intros e p Hep. apply Hdiv. unfold pattern_lengths, dict_values.
    apply list_elem_of_fmap. exists p. split; [done |].
    apply list_elem_of_fmap. by exists (e, p).
  - intros m Hm Hall. apply Hleast; [done |]. by apply Hlengths.
  - intros Hnil. rewrite Hnil in Hth. by injection Hth.
  - intros Hk. destruct (game_states_returns V th k Hk) as [V_gg HV].
    exists V_gg. split; [done |]. split.
    + intros st Hst. by apply (game_states_elem _ _ _ _ HV) in Hst as [Ht _].
    + intros HVne t Ht. destruct V as [|x V']; [done |].
      exists (State (replicate (Z.to_nat k) x) x false t). split; [| done].
      apply (game_states_elem _ _ _ _ HV). repeat split; simpl.
      * done.
      * rewrite length_replicate. lia.
      * intros y Hy. apply elem_of_replicate in Hy as [-> _]. left.
      * left.
Qed.

(** C5: on an attractor that lies inside the state set (the solver's
    contract), with at least one cop or at least one vertex, the verdict
    is [True] exactly when some cop tuple has, as the set of robbers [r]
    whose start state [(c, r, False, 0)] is in the attractor, a set of
    [len(V)] members, and [False] otherwise; [is_kcop_win] returns that
    boolean whenever the game graph is returned. *)
Theorem kcop_verdict_iff (G : list string) (get_attractor : arena -> list (@state Vertex))
    V E tau (k : Z) (th : nat) (attractor : list (@state Vertex)) :
  (1 <= k)%Z \/ V <> [] ->
  (forall st, st ∈ attractor -> is_state V th k st) ->
  (kcop_verdict (length V) attractor = true <->
   exists c : list Vertex,
     Z.of_nat (length c) = k /\ (forall x, x ∈ c -> x ∈ V) /\
     exists R : gset Vertex,
       (forall r, r ∈ R <-> State c r false 0 ∈ attractor) /\ size R = length V) /\
  (forall gg, get_game_graph G V E tau k = Ok gg ->
     get_attractor (game_graph_to_reachability_game gg.1 gg.2) = attractor ->
     is_kcop_win G get_attractor V E tau k = Ok (kcop_verdict (length V) attractor)).
Proof.
  intros Hk Hsub. split.
  - rewrite kcop_verdict_true. split.
    + intros (c & R & Hm & Hsz). pose proof (starting_classes_inv attractor c) as Hc.
      rewrite Hm in Hc. destruct Hc as [[r Hr] Hc].
      destruct (Hsub _ (proj1 (Hc r) Hr)) as (_ & Hlen & Hcops & _). simpl in *.
      exists c. split; [done |]. split; [done |]. by exists R.
    + intros (c & Hlen & Hcops & R & HR & Hsz).
      pose proof (starting_classes_inv attractor c) as Hc.
      destruct (starting_classes attractor !! c) as [R'|] eqn:Em.
      * destruct Hc as [_ Hc]. exists c, R'. split; [done |].
        replace R' with R; [done |]. apply set_eq. intros r. by rewrite HR, Hc.
      * exfalso. assert (R = ∅) as ->.
        { apply set_eq. intros r. rewrite HR. split; [intros Hr; by apply Hc in Hr |].
          intros Hr. by apply not_elem_of_empty in Hr. }
        rewrite size_empty in Hsz. destruct V as [|x V']; [| done].
        destruct Hk as [Hk | Hk]; [| done].
        destruct c as [|y c]; [simpl in Hlen; lia |].
        specialize (Hcops y (list_elem_of_here _ _)). by apply elem_of_nil in Hcops.
  - intros gg Hgg Hatt. unfold is_kcop_win. rewrite Hgg. cbn [bind]. by rewrite Hatt.
Qed.

(** C1 as the code has it: with no [tau] given, every edge of [E] on
    vertices of [V] gets the pattern ['1'] and is present at every step, in
    both directions; with a [tau] given, a pair that [tau] maps in neither
    orientation reads the symbol ['0'] at every step, whether or not it is
    an edge of [E], so it is never present; an empty [tau] has horizon 1. *)
Theorem unmapped_edge_absent V E :
  (forall a b t, (a, b) ∈ E -> a ∈ V -> b ∈ V ->
     present (adjancy V (effective_tau E None)) (vertex_index V) a b t /\
     present (adjancy V (effective_tau E None)) (vertex_index V) b a t) /\
  (forall (d : @presence_map Vertex) a b t, a ∈ V -> b ∈ V ->
     dict_get d (a, b) = None -> dict_get d (b, a) = None ->
     symbol_at (adjancy V (effective_tau E (Some d))) (vertex_index V) a b t = Ok "0"%char /\
     ~ present (adjancy V (effective_tau E (Some d))) (vertex_index V) a b t) /\
  time_horizon (effective_tau E (Some [])) = Ok 1.
Proof.
  split; [| split; [| done]].
  - intros a b t Hin Ha Hb. unfold present. cbn [effective_tau].
    rewrite !symbol_at_adjancy by done.
    destruct (static_tau_entry E a b Hin) as [-> ->]. done.
  - intros d a b t Ha Hb Hab Hba. unfold present. cbn [effective_tau].
    rewrite symbol_at_adjancy by done. unfold adjancy_entry. rewrite Hba, Hab.
    done.
Qed.

(** C2 as the code has it: the module binds neither [mp] nor [Empty];
    as written, [get_game_graph] never returns a pair and [is_kcop_win]
    never returns a verdict; the
    exception is the [NameError] of the unbound [mp] whenever the horizon
    and the state set are computed, as they are when every pattern is
    non-empty and [k] is not negative. An exception of those two stages
    comes first otherwise. *)
Theorem module_never_returns V E tau (k : Z) :
  ("mp" ∉ module_namespace) /\ ("Empty" ∉ module_namespace) /\
  (forall gg, get_game_graph module_namespace V E tau k <> Ok gg) /\
  (forall (get_attractor : arena -> list (@state Vertex)) b,
     is_kcop_win module_namespace get_attractor V E tau k <> Ok b) /\
  (forall th V_gg,
     time_horizon (effective_tau E tau) = Ok th -> game_states V th k = Ok V_gg ->
     get_game_graph module_namespace V E tau k = Raise NameError /\
     forall get_attractor : arena -> list (@state Vertex),
       is_kcop_win module_namespace get_attractor V E tau k = Raise NameError) /\
  (nonempty_patterns (effective_tau E tau) -> (0 <= k)%Z ->
   get_game_graph module_namespace V E tau k = Raise NameError).
Proof.
  assert (forall gg, get_game_graph module_namespace V E tau k <> Ok gg) as Hnever.
  { intros gg. rewrite get_game_graph_module.
    destruct (time_horizon (effective_tau E tau)) as [th|e]; [| done]. cbn [bind].
    by destruct (game_states V th k). }
  assert (forall th V_gg,
    time_horizon (effective_tau E tau) = Ok th -> game_states V th k = Ok V_gg ->
    get_game_graph module_namespace V E tau k = Raise NameError) as Hname.
  { intros th V_gg Hth HV. rewrite get_game_graph_module, Hth. cbn [bind]. by rewrite HV. }
  split; [by apply (bool_decide_unpack _) |].
  split; [by apply (bool_decide_unpack _) |].
  split; [done |]. split; [| split].
  - intros get_attractor b. unfold is_kcop_win.
    destruct (get_game_graph module_namespace V E tau k) as [gg|e] eqn:Egg; [| done].
    by destruct (Hnever gg).
  - intros th V_gg Hth HV. split; [by apply (Hname th V_gg) |].
    intros get_attractor. unfold is_kcop_win. by rewrite (Hname th V_gg).
  - intros Hne Hk. destruct (time_horizon_lcm _ Hne) as (th & Hth & _).
    destruct (game_states_returns V th k Hk) as [V_gg HV]. by apply (Hname th V_gg).
Qed.

(** C6 as the code has it: patterns are not validated. With exactly one
    empty pattern in [tau] the horizon is computed as 0 and the state set
    is empty, so that with [mp] bound the empty game graph is returned;
    with two or more empty patterns the reduction raises
    [ZeroDivisionError]. *)
Theorem empty_pattern_horizon (G : list string) V E tau (k : Z) :
  (empty_patterns (effective_tau E tau) = 1 ->
   time_horizon (effective_tau E tau) = Ok 0 /\
   game_states V 0 k = Ok [] /\
   ("mp" ∈ G -> get_game_graph G V E tau k = Ok ([], []))) /\
  (2 <= empty_patterns (effective_tau E tau) ->
   time_horizon (effective_tau E tau) = Raise ZeroDivisionError /\
   get_game_graph G V E tau k = Raise ZeroDivisionError).
Proof.
  assert (time_horizon (effective_tau E tau) =
    match empty_patterns (effective_tau E tau) with
    | 0 => time_horizon (effective_tau E tau)
    | 1 => Ok 0
    | S (S _) => Raise ZeroDivisionError
    end) as Hcases.
  { rewrite <- zeros_pattern_lengths. unfold time_horizon.
    destruct (pattern_lengths (effective_tau E tau)) as [|x ys]; [done |].
    destruct x as [|x].
    - unfold zeros. rewrite filter_cons_True by done. cbn [length].
      rewrite reduce_lcm_from_zero. fold (zeros ys). by destruct (zeros ys).
    - unfold zeros. rewrite filter_cons_False by lia. fold (zeros ys).
      rewrite reduce_lcm_zeros by lia. by destruct (zeros ys) as [|[|n]]. }
  split.
  - intros Hone. rewrite Hone in Hcases. split; [done |]. split; [done |].
    intros Hmp. rewrite get_game_graph_resolved by done. by rewrite Hcases.
  - intros Htwo. destruct (empty_patterns (effective_tau E tau)) as [|[|n]]; [lia | lia |].
    split; [done |]. unfold get_game_graph. by rewrite Hcases.
Qed.

(** C7 as the code has it: [k] is not validated. With [k = 0] the state
    set is built with empty cop tuples, one state for each robber vertex,
    turn and time step, and the cops' turn passes by an arc; a negative [k] makes the enumeration itself raise
    [ValueError] when the horizon is positive, and yields the empty state
    set when the horizon is 0. *)
Theorem cop_count_unchecked V (th : nat) :
  (exists V_gg, game_states V th 0 = Ok V_gg /\
     forall st, st ∈ V_gg <-> time st < th /\ cops st = [] /\ robber st ∈ V) /\
  (forall (G : list string) adjancy (vertex_index : gmap Vertex nat) r t,
     add_to_arcs G adjancy vertex_index th (State [] r false t) (State [] r true t)
       = Ok true) /\
  (forall k, (k < 0)%Z -> 0 < th -> game_states V th k = Raise ValueError) /\
  (forall k, game_states V 0 k = Ok []).
Proof.
  split; [| split; [intros; apply add_to_arcs_no_cops |
    split; [apply game_states_negative | apply game_states_zero_horizon]]].
  destruct (game_states_returns V th 0) as [V_gg HV]; [lia |].
  exists V_gg. split; [done |]. intros st.
  rewrite (game_states_elem _ _ _ _ HV). unfold is_state. split.
  - intros (Ht & Hlen & _ & Hr). split; [done |]. split; [| done].
    destruct (cops st); [done | simpl in Hlen; lia].
  - intros (Ht & Hc & Hr). rewrite Hc. repeat split; [done.. | | done].
    intros x Hx. by apply elem_of_nil in Hx.
Qed.
End MainResults.

(** * The results on the self-test graphs *)

(** With the two names bound, the model yields the state count and the
    arc set that the module's self-test asserts for [K_2] with two cops,
    and the horizon and the number of arcs it asserts for the path. *)
Example K2_two_cops_self_test :
  exists V_gg A_gg,
    get_game_graph resolved_namespace K2_V K2_E None 2 = Ok (V_gg, A_gg) /\
    length V_gg = 16 /\
    Forall (fun a => a ∈ K2_two_cops_arcs) A_gg /\
    Forall (fun a => a ∈ A_gg) K2_two_cops_arcs.
Proof.
  eexists. eexists. split; [vm_compute; reflexivity |].
  split; [reflexivity |].
  split; apply (bool_decide_unpack _); by vm_compute.
Qed.

Example P2_self_test :
  time_horizon P2_tau = Ok 2 /\
  exists A_gg,
    get_game_graph resolved_namespace P2_V P2_E (Some P2_tau) 1 = Ok (P2_states, A_gg) /\
    length A_gg = 42.
Proof.
  split; [reflexivity |]. eexists. split; [vm_compute; reflexivity | reflexivity].
Qed.

Lemma P2_tau_nonempty : nonempty_patterns (effective_tau P2_E (Some P2_tau)).
Proof.
  intros e p Hin. simpl in Hin. unfold P2_tau in Hin.
  repeat (apply elem_of_cons in Hin as [[= _ ->] | Hin]; [done |]).
  by apply elem_of_nil in Hin.
Qed.

Lemma P2_tau_binary : binary_patterns (effective_tau P2_E (Some P2_tau)).
Proof.
  intros e p Hin i c Hget. simpl in Hin. unfold P2_tau in Hin.
  repeat (apply elem_of_cons in Hin as [[= _ ->] | Hin];
    [destruct i as [|[|[|i]]]; simpl in Hget; try discriminate;
       injection Hget as <-; auto |]).
  by apply elem_of_nil in Hin.
Qed.

Lemma cop_move_arcs_witness :
  exists A_gg,
    game_arcs resolved_namespace (adjancy P2_V P2_tau) (vertex_index P2_V) 2 P2_states
      = Ok A_gg /\
    ((State [2] 1 false 1, State [3] 1 true 1) ∈ A_gg /\ false = false <->
     false = false /\ true = true /\ 1 = 1 /\ 1 = 1 /\ (1 ∉ [2]) /\
     forall i a b, [2] !! i = Some a -> [3] !! i = Some b ->
       a = b \/ edge_present P2_tau a b 1) /\
    ((State [2] 1 false 1, State [3] 1 true 1) ∈ A_gg <->
     add_to_arcs resolved_namespace (adjancy P2_V P2_tau) (vertex_index P2_V) 2
       (State [2] 1 false 1) (State [3] 1 true 1) = Ok true).
Proof.
  apply (cop_move_arcs resolved_namespace P2_V P2_E (Some P2_tau) 1 2 P2_states
           (State [2] 1 false 1) (State [3] 1 true 1)).
  - exact P2_tau_nonempty.
  - exact P2_tau_binary.
  - reflexivity.
  - reflexivity.
  - apply (bool_decide_unpack _). by vm_compute.
  - apply (bool_decide_unpack _). by vm_compute.
Defined.

Lemma robber_move_arcs_witness :
  exists A_gg,
    game_arcs resolved_namespace (adjancy P2_V P2_tau) (vertex_index P2_V) 2 P2_states
      = Ok A_gg /\
    ((State [1] 3 true 1, State [1] 2 false 0) ∈ A_gg /\ true = true <->
     true = true /\ false = false /\ 0 = (1 + 1) mod 2 /\
     [1] = [1] /\ (3 ∉ [1]) /\ (2 ∉ [1]) /\
     (2 = 3 \/ edge_present P2_tau 3 2 1)) /\
    ((State [1] 3 true 1, State [1] 2 false 0) ∈ A_gg <->
     add_to_arcs resolved_namespace (adjancy P2_V P2_tau) (vertex_index P2_V) 2
       (State [1] 3 true 1) (State [1] 2 false 0) = Ok true).
Proof.
  apply (robber_move_arcs resolved_namespace P2_V P2_E (Some P2_tau) 1 2 P2_states
           (State [1] 3 true 1) (State [1] 2 false 0)).
  - exact P2_tau_nonempty.
  - reflexivity.
  - reflexivity.
  - apply (bool_decide_unpack _). by vm_compute.
  - apply (bool_decide_unpack _). by vm_compute.
Defined.

Lemma capture_state_no_out_arc_witness :
  add_to_arcs module_namespace (adjancy P2_V P2_tau) (vertex_index P2_V) 2
    (State [2] 2 false 0) (State [1] 2 true 0) = Ok false /\
  forall A_gg,
    game_arcs module_namespace (adjancy P2_V P2_tau) (vertex_index P2_V) 2 P2_states
      = Ok A_gg ->
    (State [2] 2 false 0, State [1] 2 true 0) ∉ A_gg.
Proof.
  apply (capture_state_no_out_arc module_namespace (adjancy P2_V P2_tau)
           (vertex_index P2_V) 2 P2_states (State [2] 2 false 0) (State [1] 2 true 0)).
  simpl. left.
Defined.

Lemma time_horizon_is_lcm_witness :
  exists th,
    time_horizon P2_tau = Ok th /\
    0 < th /\
    (forall e p, (e, p) ∈ P2_tau -> (String.length p | th)) /\
    (forall m, 0 < m -> (forall e p, (e, p) ∈ P2_tau -> (String.length p | m)) -> th <= m) /\
    (P2_tau = [] -> th = 1) /\
    ((0 <= 1)%Z ->
     exists V_gg, game_states P2_V th 1 = Ok V_gg /\
       (forall st, st ∈ V_gg -> time st < th) /\
       (P2_V <> [] -> forall t, t < th -> exists st, st ∈ V_gg /\ time st = t)).
Proof.
  apply (time_horizon_is_lcm P2_V P2_E (Some P2_tau) 1). exact P2_tau_nonempty.
Defined.

Lemma K2_attractor_states :
  forall st, st ∈ K2_attractor -> is_state K2_V 1 1 st.
Proof.
  intros st Hst. unfold K2_attractor in Hst.
  repeat (apply elem_of_cons in Hst as [-> | Hst];
    [repeat split; simpl; try lia;
       try (intros x Hx; apply list_elem_of_singleton in Hx as ->);
       apply (bool_decide_unpack _); by vm_compute |]).
  by apply elem_of_nil in Hst.
Qed.

Lemma kcop_verdict_iff_witness :
  (kcop_verdict (length K2_V) K2_attractor = true <->
   exists c : list nat,
     Z.of_nat (length c) = 1%Z /\ (forall x, x ∈ c -> x ∈ K2_V) /\
     exists R : gset nat,
       (forall r, r ∈ R <-> State c r false 0 ∈ K2_attractor) /\ size R = length K2_V) /\
  (forall gg, get_game_graph resolved_namespace K2_V K2_E None 1 = Ok gg ->
     (fun _ => K2_attractor) (game_graph_to_reachability_game gg.1 gg.2) = K2_attractor ->
     is_kcop_win resolved_namespace (fun _ => K2_attractor) K2_V K2_E None 1
       = Ok (kcop_verdict (length K2_V) K2_attractor)).
Proof.
  apply (kcop_verdict_iff resolved_namespace (fun _ => K2_attractor) K2_V K2_E None 1 1
           K2_attractor).
  - left. lia.
  - exact K2_attractor_states.
Defined.

Lemma unmapped_edge_absent_witness :
  present (adjancy K2_V (effective_tau K2_E None)) (vertex_index K2_V) 1 2 0 /\
  symbol_at (adjancy K2_V (effective_tau K2_E (Some []))) (vertex_index K2_V) 1 2 0
    = Ok "0"%char.
Proof.
  destruct (unmapped_edge_absent K2_V K2_E) as (Hstatic & Hgiven & _). split.
  - apply (Hstatic 1 2 0); apply (bool_decide_unpack _); by vm_compute.
  - apply (Hgiven [] 1 2 0); try reflexivity; apply (bool_decide_unpack _); by vm_compute.
Defined.

Lemma module_never_returns_witness :
  get_game_graph module_namespace P2_V P2_E (Some P2_tau) 1 = Raise NameError.
Proof.
  destruct (module_never_returns P2_V P2_E (Some P2_tau) 1) as (_ & _ & _ & _ & _ & Hname).
  apply Hname; [exact P2_tau_nonempty | lia].
Defined.

Lemma empty_pattern_horizon_witness :
  get_game_graph resolved_namespace K2_V K2_E (Some [((1, 2), "")]) 1 = Ok ([], []) /\
  time_horizon [((1, 2), ""); ((2, 3), "")] = Raise ZeroDivisionError.
Proof.
  split.
  - destruct (empty_pattern_horizon resolved_namespace K2_V K2_E (Some [((1, 2), "")]) 1)
      as [Hone _].
    apply Hone; [reflexivity | apply (bool_decide_unpack _); by vm_compute].
  - destruct (empty_pattern_horizon resolved_namespace P2_V P2_E
                (Some [((1, 2), ""); ((2, 3), "")]) 1) as [_ Htwo].
    apply Htwo. vm_compute. lia.
Defined.

Lemma cop_count_unchecked_witness :
  game_states K2_V 1 (-1) = Raise ValueError.
Proof.
  destruct (cop_count_unchecked K2_V 1) as (_ & _ & Hneg & _). apply Hneg; lia.
Defined.

(** C1 fails as stated: on [K_2] with an empty [tau] the edge [(1, 2)] of
    [E] is unmapped and the lookup answers absent, and the game graph is
    not the one of the static case. *)
Lemma unmapped_edge_counterexample :
  (1, 2) ∈ K2_E /\
  dict_get ([] : list (nat * nat * string)) (1, 2) = None /\
  dict_get ([] : list (nat * nat * string)) (2, 1) = None /\
  ~ present (adjancy K2_V (effective_tau K2_E (Some []))) (vertex_index K2_V) 1 2 0 /\
  get_game_graph resolved_namespace K2_V K2_E (Some []) 1
    <> get_game_graph resolved_namespace K2_V K2_E None 1.
Proof.
  split; [left |]. split; [done |]. split; [done |]. split.
  - unfold present. vm_compute. discriminate.
  - vm_compute. discriminate.
Qed.

(** C2 fails as stated: with two empty patterns the exception is the
    [ZeroDivisionError] of the reduction, and with [k = -1] the
    [ValueError] of the state enumeration, not a [NameError]. *)
Lemma module_other_exception_counterexample :
  get_game_graph module_namespace P2_V P2_E (Some [((1, 2), ""); ((2, 3), "")]) 1
    = Raise ZeroDivisionError /\
  get_game_graph module_namespace K2_V K2_E None (-1) = Raise ValueError /\
  get_game_graph module_namespace P2_V P2_E (Some [((1, 2), ""); ((2, 3), "")]) 1
    <> Raise NameError.
Proof. split; [reflexivity |]. split; [reflexivity | discriminate]. Qed.

(** C6 fails as stated: one empty pattern is not rejected; the horizon is
    0, the state set is empty, and with [mp] bound the empty game graph is
    returned; the module as written only fails on the unbound name. *)
Lemma single_empty_pattern_counterexample :
  time_horizon [((1, 2), "")] = Ok 0 /\
  game_states K2_V 0 1 = Ok [] /\
  get_game_graph resolved_namespace K2_V K2_E (Some [((1, 2), "")]) 1 = Ok ([], []) /\
  get_game_graph module_namespace K2_V K2_E (Some [((1, 2), "")]) 1 = Raise NameError.
Proof. repeat split; reflexivity. Qed.

(** C7 fails as stated: [k = 0] is not rejected; the state set is built
    with no cops, and with [mp] bound the game graph is returned with
    arcs between those states. *)
Lemma zero_cops_counterexample :
  game_states K2_V 1 0 =
    Ok [State [] 1 false 0; State [] 2 false 0; State [] 1 true 0; State [] 2 true 0] /\
  exists V_gg A_gg,
    get_game_graph resolved_namespace K2_V K2_E None 0 = Ok (V_gg, A_gg) /\
    (State [] 1 false 0, State [] 1 true 0) ∈ A_gg.
Proof.
  split; [reflexivity |]. eexists. eexists. split; [vm_compute; reflexivity |]. left.
Qed.

(** * Further properties of the game graph *)

(** ** The shape of an accepted pair *)

Section ArcShape.
Context {Vertex : Type} `{Countable Vertex}.
Implicit Types (V : list Vertex) (u v : @state Vertex).

(** Whatever the adjacency matrix holds, a pair is only accepted through
    one of the two branches, and each branch has tested its guard. *)
Lemma add_to_arcs_try_shape (adjancy : list (list string)) (vertex_index : gmap Vertex nat)
    (th : nat) u v :
  add_to_arcs_try adjancy vertex_index th u v = Ok true ->
  (robber u ∉ cops u) /\
  ((turn u = false /\ turn v = true /\ time v = time u /\ robber v = robber u) \/
   (turn u = true /\ turn v = false /\ 0 < th /\ time v = (time u + 1) mod th /\
    cops v = cops u /\ (robber v ∉ cops v))).
Proof.
  unfold add_to_arcs_try. case_bool_decide as Hcap; [discriminate |].
  intros Hadd. split; [done |].
  destruct (bool_decide (time u = time v) && negb (turn u) && turn v
            && bool_decide (robber u = robber v)) eqn:Ecop.
  - left. apply andb_true_iff in Ecop as [Ecop Hr].
    apply andb_true_iff in Ecop as [Ecop Hs1].
    apply andb_true_iff in Ecop as [Ht Hs0].
    apply bool_decide_eq_true in Hr, Ht. apply negb_true_iff in Hs0. done.
  - right. destruct th as [|th]; [discriminate |]. cbn [py_mod bind] in Hadd.
    destruct (bool_decide ((time u + 1) mod S th = time v) && turn u && negb (turn v)
              && bool_decide (cops u = cops v) && bool_decide (robber v ∉ cops v))
      eqn:Erob; [| discriminate].
    apply andb_true_iff in Erob as [Erob Hr1].
    apply andb_true_iff in Erob as [Erob Hc].
    apply andb_true_iff in Erob as [Erob Hs1].
    apply andb_true_iff in Erob as [Ht Hs0].
    apply bool_decide_eq_true in Hr1, Hc, Ht. apply negb_true_iff in Hs1.
    repeat split; [done | done | lia | done | done | done].
Qed.

Lemma cops_move_valid_stay (adjancy : list (list string)) (vertex_index : gmap Vertex nat)
    (t : nat) (c : list Vertex) (slots : list nat) :
  (forall i, i ∈ slots -> i < length c) ->
  cops_move_valid adjancy vertex_index t c c slots = Ok true.
Proof.
  induction slots as [|i slots IH]; intros Hslots; [done |].
  cbn [cops_move_valid]. unfold subscript_list.
  destruct (lookup_lt_is_Some_2 c i) as [a Ha]; [apply Hslots; left |].
  rewrite Ha. cbn [bind]. rewrite bool_decide_eq_false_2 by (intros Hne; by apply Hne).
  apply IH. intros j Hj. apply Hslots. by right.
Qed.

(** The cops may all stay: no symbol is read for a slot that keeps its
    vertex. *)
Lemma add_to_arcs_try_cops_stay (adjancy : list (list string))
    (vertex_index : gmap Vertex nat) (th : nat) u :
  robber u ∉ cops u -> turn u = false ->
  add_to_arcs_try adjancy vertex_index th u (State (cops u) (robber u) true (time u))
    = Ok true.
Proof.
  intros Hcap Hs0. unfold add_to_arcs_try. cbn [cops robber turn time].
  rewrite (bool_decide_eq_false_2 _ Hcap), Hs0.
  rewrite (bool_decide_eq_true_2 (time u = time u)) by done.
  rewrite (bool_decide_eq_true_2 (robber u = robber u)) by done. cbn [negb andb].
  apply cops_move_valid_stay. intros i Hi. apply elem_of_seq in Hi. lia.
Qed.

(** The robber may stay: the time advances and no symbol is read. *)
Lemma add_to_arcs_try_robber_stays (adjancy : list (list string))
    (vertex_index : gmap Vertex nat) (th : nat) u :
  robber u ∉ cops u -> turn u = true -> 0 < th ->
  add_to_arcs_try adjancy vertex_index th u
    (State (cops u) (robber u) false ((time u + 1) mod th)) = Ok true.
Proof.
  intros Hcap Hs0 Hth. unfold add_to_arcs_try. cbn [cops robber turn time].
  rewrite (bool_decide_eq_false_2 _ Hcap), Hs0. cbn [negb].
  rewrite andb_false_r. cbn [andb].
  destruct th as [|th]; [lia |]. cbn [py_mod bind].
  rewrite (bool_decide_eq_true_2 ((time u + 1) mod S th = (time u + 1) mod S th)) by done.
  rewrite (bool_decide_eq_true_2 (cops u = cops u)) by done.
  rewrite (bool_decide_eq_true_2 _ Hcap). cbn [negb andb].
  by rewrite (bool_decide_eq_true_2 (robber u = robber u)).
Qed.

(** X1: every arc of the arc set joins two states of the state list
    whose turn flags differ, so no arc is a loop; an arc from a state
    where the cops are to move keeps the time and the robber, and an arc
    from a state where the robber is to move advances the time modulo the
    horizon and keeps the cops. This holds whatever the adjacency matrix
    contains. *)
Theorem arcs_alternate (G : list string) (adjancy : list (list string))
    (vertex_index : gmap Vertex nat) (th : nat)
    (V_gg : list (@state Vertex)) (A_gg : list (@arc Vertex)) u v :
  game_arcs G adjancy vertex_index th V_gg = Ok A_gg ->
  (u, v) ∈ A_gg ->
  u ∈ V_gg /\ v ∈ V_gg /\ turn v = negb (turn u) /\ u <> v /\
  (turn u = false -> time v = time u /\ robber v = robber u) /\
  (turn u = true -> time v = (time u + 1) mod th /\ cops v = cops u).
Proof.
  intros HA Hin. apply (game_arcs_elem _ _ _ _ _ _ HA) in Hin as (Hu & Hv & Hadd).
  apply add_to_arcs_try_shape in Hadd as [_ Hshape].
  split; [done |]. split; [done |].
  destruct Hshape as [(Hs0 & Hs1 & Ht & Hr) | (Hs0 & Hs1 & _ & Ht & Hc & _)];
    rewrite Hs0, Hs1; (split; [done |]); (split; [intros ->; congruence |]);
    (split; [done || discriminate | done || discriminate]).
Qed.

(** X2: in the arena of a game graph every arc leaves a state outside
    the target set [F], and it goes either from [S0] to [S1] or from [S1]
    to a state of [S0] that is not in [F]: only a move of the cops can
    enter the target set. *)
Theorem arena_arcs_bipartite (G : list string) (adjancy : list (list string))
    (vertex_index : gmap Vertex nat) (th : nat)
    (V_gg : list (@state Vertex)) (A_gg : list (@arc Vertex))
    (S0 S1 F : list (@state Vertex)) (A : list (@arc Vertex)) u v :
  game_arcs G adjancy vertex_index th V_gg = Ok A_gg ->
  game_graph_to_reachability_game V_gg A_gg = (S0, S1, A, F) ->
  (u, v) ∈ A ->
  (u ∉ F) /\ ((u ∈ S0 /\ v ∈ S1) \/ (u ∈ S1 /\ v ∈ S0 /\ (v ∉ F))).
Proof.
  intros HA Harena. unfold game_graph_to_reachability_game in Harena.
  rewrite partition_fold in Harena. cbn [app] in Harena.
  injection Harena as <- <- <- <-. intros Hin.
  apply (game_arcs_elem _ _ _ _ _ _ HA) in Hin as (Hu & Hv & Hadd).
  apply add_to_arcs_try_shape in Hadd as [Hcap Hshape]. split.
  - intros HF. by apply list_elem_of_filter in HF as [? _].
  - destruct Hshape as [(Hs0 & Hs1 & _) | (Hs0 & Hs1 & _ & _ & _ & Hcap1)].
    + left. split; by apply list_elem_of_filter.
    + right. split; [by apply list_elem_of_filter |].
      split; [by apply list_elem_of_filter |].
      intros HF. by apply list_elem_of_filter in HF as [? _].
Qed.

(** X3: a state of the game graph has an outgoing arc exactly when it
    is not a capture state: the arc on which everybody stays is always
    accepted, without reading the adjacency matrix. *)
Theorem out_arc_iff_not_captured (G : list string) (adjancy : list (list string))
    (vertex_index : gmap Vertex nat) V (th : nat) (k : Z)
    (V_gg : list (@state Vertex)) (A_gg : list (@arc Vertex)) u :
  game_states V th k = Ok V_gg ->
  game_arcs G adjancy vertex_index th V_gg = Ok A_gg ->
  u ∈ V_gg ->
  ((exists v, (u, v) ∈ A_gg) <-> robber u ∉ cops u).
Proof.
  intros HV HA Hu. split.
  - intros [v Hin]. apply (game_arcs_elem _ _ _ _ _ _ HA) in Hin as (_ & _ & Hadd).
    by apply add_to_arcs_try_shape in Hadd as [Hcap _].
  - intros Hcap.
    pose proof (proj1 (game_states_elem _ _ _ _ HV u) Hu) as (Ht & Hk & Hc & Hr).
    destruct (turn u) eqn:Hs0.
    + exists (State (cops u) (robber u) false ((time u + 1) mod th)).
      apply (game_arcs_elem _ _ _ _ _ _ HA). split; [done |]. split.
      * apply (game_states_elem _ _ _ _ HV). repeat split; cbn [cops robber time]; try done.
        apply Nat.mod_upper_bound. lia.
      * apply add_to_arcs_try_robber_stays; [done | done | lia].
    + exists (State (cops u) (robber u) true (time u)).
      apply (game_arcs_elem _ _ _ _ _ _ HA). split; [done |]. split.
      * apply (game_states_elem _ _ _ _ HV). by repeat split.
      * by apply add_to_arcs_try_cops_stay.
Qed.
End ArcShape.

(** ** The horizon and the presence lookup *)

Section HorizonAndLookup.
Context {Vertex : Type} `{Countable Vertex}.
Implicit Types (V : list Vertex) (E : list (@edge Vertex)) (tau : @presence_map Vertex).

Lemma time_horizon_cases tau :
  time_horizon tau =
    match empty_patterns tau with
    | 0 => time_horizon tau
    | 1 => Ok 0
    | S (S _) => Raise ZeroDivisionError
    end.
Proof.
  rewrite <- zeros_pattern_lengths. unfold time_horizon.
  destruct (pattern_lengths tau) as [|x ys]; [done |].
  destruct x as [|x].
  - unfold zeros. rewrite filter_cons_True by done. cbn [length].
    rewrite reduce_lcm_from_zero. fold (zeros ys). by destruct (zeros ys).
  - unfold zeros. rewrite filter_cons_False by lia. fold (zeros ys).
    rewrite reduce_lcm_zeros by lia. by destruct (zeros ys) as [|[|n]].
Qed.

Lemma empty_patterns_none tau :
  empty_patterns tau = 0 <-> nonempty_patterns tau.
Proof.
  unfold empty_patterns, nonempty_patterns. induction tau as [|[e p] tau IH].
  - split; [| done]. intros _ e p Hin. by apply elem_of_nil in Hin.
  - destruct (decide (p = "")) as [-> | Hp].
    + rewrite (filter_cons_True (fun ep : @edge Vertex * string => ep.2 = "") (e, ""))
        by done.
      split; [done |].
      intros Hne. by destruct (Hne e "" (list_elem_of_here _ _)).
    + rewrite (filter_cons_False (fun ep : @edge Vertex * string => ep.2 = "") (e, p))
        by done.
      rewrite IH. split.
      * intros Hne e' p' Hin. apply elem_of_cons in Hin as [[= -> ->] | Hin]; eauto.
      * intros Hne e' p' Hin. apply (Hne e'). by right.
Qed.

Lemma time_horizon_positive tau (th : nat) :
  time_horizon tau = Ok th -> 0 < th -> nonempty_patterns tau.
Proof.
  intros Hth Hpos. apply empty_patterns_none.
  rewrite time_horizon_cases in Hth.
  destruct (empty_patterns tau) as [|[|n]]; [done | | discriminate].
  injection Hth as <-. lia.
Qed.

Lemma adjancy_entry_divides tau (th : nat) (u v : Vertex) :
  time_horizon tau = Ok th -> 0 < th ->
  (String.length (adjancy_entry tau u v) | th).
Proof.
  intros Hth Hpos. pose proof (time_horizon_positive tau th Hth Hpos) as Hne.
  destruct (time_horizon_lcm tau Hne) as (th' & Hth' & _ & Hdiv & _).
  rewrite Hth in Hth'. injection Hth' as <-.
  destruct (adjancy_entry_cases tau u v) as [-> | [e He]].
  - simpl. apply Nat.divide_1_l.
  - apply Hdiv. unfold pattern_lengths, dict_values.
    apply list_elem_of_fmap. exists (adjancy_entry tau u v). split; [done |].
    apply list_elem_of_fmap. by exists (e, adjancy_entry tau u v).
Qed.

(** X4: once the horizon and the state set are computed, [add_to_arcs]
    raises on no pair of states of the state set, whatever the patterns
    are and whether or not [Empty] is bound: a state can only exist when
    the horizon is positive, which no empty pattern allows, so the modulo
    by a pattern length of 0 is never reached. *)
Theorem add_to_arcs_never_raises (G : list string) V E
    (tau : option (@presence_map Vertex)) (k : Z) (th : nat)
    (V_gg : list (@state Vertex)) (u v : @state Vertex) :
  time_horizon (effective_tau E tau) = Ok th ->
  game_states V th k = Ok V_gg ->
  u ∈ V_gg -> v ∈ V_gg ->
  exists b,
    add_to_arcs G (adjancy V (effective_tau E tau)) (vertex_index V) th u v = Ok b.
Proof.
  intros Hth HV Hu Hv.
  pose proof (proj1 (game_states_elem _ _ _ _ HV u) Hu) as Hsu.
  pose proof (proj1 (game_states_elem _ _ _ _ HV v) Hv) as Hsv.
  assert (0 < th) as Hpos by (destruct Hsu as [Ht _]; lia).
  pose proof (time_horizon_positive _ th Hth Hpos) as Hne.
  destruct (add_to_arcs_try_returns V _ th k u v Hne Hsu Hsv) as [b Hb].
  exists b. by apply add_to_arcs_ok_iff.
Qed.

(** X5: the symbol read for two vertices of [V] is periodic in the time
    step with the horizon as a period: every pattern length divides the
    horizon, so the lookup at [t + time_horizon] is the lookup at [t]. *)
Theorem symbol_periodic V tau (th : nat) (a b : Vertex) (t : nat) :
  time_horizon tau = Ok th -> a ∈ V -> b ∈ V ->
  symbol_at (adjancy V tau) (vertex_index V) a b (t + th) =
  symbol_at (adjancy V tau) (vertex_index V) a b t.
Proof.
  intros Hth Ha Hb. destruct th as [|th]; [by rewrite Nat.add_0_r |].
  rewrite !symbol_at_adjancy by done.
  destruct (adjancy_entry_divides tau (S th) b a Hth) as [q Hq]; [lia |].
  unfold py_mod. destruct (String.length (adjancy_entry tau b a)) as [|n]; [done |].
  rewrite Hq, Nat.Div0.mod_add. done.
Qed.

(** X6: the lookup is symmetric in the two vertices as long as [tau]
    does not map the two orientations of the pair to different patterns
    (first [(b, a)] and then [(a, b)] is consulted when reading from [a]
    to [b]). *)
Theorem symbol_symmetric V tau (a b : Vertex) (t : nat) :
  a ∈ V -> b ∈ V ->
  (forall p q, dict_get tau (a, b) = Some p -> dict_get tau (b, a) = Some q -> p = q) ->
  symbol_at (adjancy V tau) (vertex_index V) a b t =
  symbol_at (adjancy V tau) (vertex_index V) b a t.
Proof.
  intros Ha Hb Hsame. rewrite !symbol_at_adjancy by done.
  assert (adjancy_entry tau b a = adjancy_entry tau a b) as ->; [| done].
  unfold adjancy_entry.
  destruct (dict_get tau (a, b)) as [p|], (dict_get tau (b, a)) as [q|]; try done.
  symmetry. by apply Hsame.
Qed.

(** X7: when [tau] is not given the graph is static: the horizon is 1
    whatever [E] is, and two vertices of [V] are joined by a present edge,
    at every time step, exactly when [E] lists the pair in one of its two
    orientations. *)
Theorem static_graph V E :
  time_horizon (effective_tau E None) = Ok 1 /\
  forall a b t, a ∈ V -> b ∈ V ->
    (present (adjancy V (effective_tau E None)) (vertex_index V) a b t <->
     (a, b) ∈ E \/ (b, a) ∈ E).
Proof.
  split.
  - destruct (time_horizon_lcm _ (static_tau_nonempty E)) as (th & Hth & Hpos & _ & Hleast).
    rewrite Hth. f_equal. assert (th <= 1); [| lia].
    apply Hleast; [lia |]. intros n Hn. unfold pattern_lengths, dict_values in Hn.
    apply list_elem_of_fmap in Hn as (p & -> & Hp).
    apply list_elem_of_fmap in Hp as ([e p'] & -> & Hep).
    rewrite (static_tau_patterns E e p' Hep). simpl. apply Nat.divide_1_l.
  - intros a b t Ha Hb. unfold present. cbn [effective_tau].
    rewrite symbol_at_adjancy by done. unfold adjancy_entry, static_tau.
    rewrite !static_tau_fold. cbn [dict_get].
    repeat case_decide; (split; [intros Hsym | intros Hor]);
      first [done | tauto | discriminate].
Qed.

(** X8: the horizon does not depend on the order in which [tau] lists
    its entries: the reduction gives the same result, or raises the same
    exception, on any rearrangement of the dictionary. *)
Theorem time_horizon_order (tau1 tau2 : @presence_map Vertex) :
  tau1 ≡ₚ tau2 -> time_horizon tau1 = time_horizon tau2.
Proof.
  intros Hperm.
  assert (empty_patterns tau1 = empty_patterns tau2) as Hempty.
  { unfold empty_patterns. by rewrite Hperm. }
  rewrite (time_horizon_cases tau1), (time_horizon_cases tau2), Hempty.
  destruct (empty_patterns tau2) as [|[|n]] eqn:E2; [| done | done].
  apply empty_patterns_none in Hempty, E2.
  destruct (time_horizon_lcm tau1 Hempty) as (th1 & Hth1 & Hpos1 & Hdiv1 & Hleast1).
  destruct (time_horizon_lcm tau2 E2) as (th2 & Hth2 & Hpos2 & Hdiv2 & Hleast2).
  rewrite Hth1, Hth2. f_equal.
  assert (forall n, n ∈ pattern_lengths tau1 <-> n ∈ pattern_lengths tau2) as Hsame.
  { intros n. unfold pattern_lengths, dict_values. by rewrite Hperm. }
  apply Nat.le_antisymm.
  - apply Hleast1; [done |]. intros n Hn. by apply Hdiv2, Hsame.
  - apply Hleast2; [done |]. intros n Hn. by apply Hdiv1, Hsame.
Qed.
End HorizonAndLookup.

(** ** The size of the state set and the absence of duplicates *)

Lemma mapM_r_length {A B : Type} (f : A -> result B) (l : list A) (bs : list B) :
  mapM_r f l = Ok bs -> length bs = length l.
Proof.
  revert bs. induction l as [|a l IH]; simpl; intros bs Hm.
  - by injection Hm as <-.
  - apply bind_ok_inv in Hm as (b & _ & Hm).
    apply bind_ok_inv in Hm as (bs' & Hbs' & Hm). injection Hm as <-.
    simpl. f_equal. by apply IH.
Qed.

Lemma concat_length_const {A : Type} (ls : list (list A)) (m : nat) :
  (forall l, l ∈ ls -> length l = m) -> length (concat ls) = length ls * m.
Proof.
  induction ls as [|l ls IH]; simpl; intros Hls; [done |].
  rewrite length_app, (Hls l) by left. f_equal. apply IH. intros l' Hl'. apply Hls. by right.
Qed.

Lemma bind_length_const {A B : Type} (f : A -> list B) (l : list A) (m : nat) :
  (forall a, length (f a) = m) -> length (l ≫= f) = length l * m.
Proof.
  intros Hf. induction l as [|a l IH]; [done |].
  rewrite bind_cons, length_app, Hf, IH. done.
Qed.

(** The outputs of a loop over distinct inputs are distinct when no two
    inputs give the same output. *)
Lemma mapM_r_NoDup {A B : Type} (f : A -> result B) (l : list A) (bs : list B) :
  mapM_r f l = Ok bs -> NoDup l ->
  (forall a1 a2 b, a1 ∈ l -> a2 ∈ l -> f a1 = Ok b -> f a2 = Ok b -> a1 = a2) ->
  NoDup bs.
Proof.
  revert bs. induction l as [|a l IH]; simpl; intros bs Hm Hnd Hinj.
  - injection Hm as <-. constructor.
  - apply bind_ok_inv in Hm as (b & Hb & Hm).
    apply bind_ok_inv in Hm as (bs' & Hbs' & Hm). injection Hm as <-.
    apply NoDup_cons in Hnd as [Hnotin Hnd]. apply NoDup_cons. split.
    + intros Hin. apply (mapM_r_elem _ _ _ Hbs') in Hin as (a' & Ha' & Hfa').
      apply Hnotin. replace a with a'; [done |].
      apply (Hinj a' a b); [by right | left | done | done].
    + apply IH; [done | done |]. intros a1 a2 b0 H1 H2. apply Hinj; by right.
Qed.

(** The concatenation of the lists produced for distinct inputs has no
    duplicates when each list has none and every element records the
    input it was produced for. *)
Lemma mapM_r_concat_NoDup {A B : Type} (f : A -> result (list B)) (tag : B -> A)
    (l : list A) (bss : list (list B)) :
  mapM_r f l = Ok bss -> NoDup l ->
  (forall a bs, a ∈ l -> f a = Ok bs -> NoDup bs /\ forall b, b ∈ bs -> tag b = a) ->
  NoDup (concat bss).
Proof.
  revert bss. induction l as [|a l IH]; simpl; intros bss Hm Hnd Hf.
  - injection Hm as <-. constructor.
  - apply bind_ok_inv in Hm as (bs & Hbs & Hm).
    apply bind_ok_inv in Hm as (bss' & Hbss' & Hm). injection Hm as <-.
    apply NoDup_cons in Hnd as [Hnotin Hnd]. simpl.
    destruct (Hf a bs) as [Hbsnd Htag]; [left | done |].
    apply NoDup_app. split; [done |]. split.
    + intros b Hb Hin. apply elem_of_concat in Hin as (bs' & Hb' & Hbs').
      apply (mapM_r_elem _ _ _ Hbss') in Hbs' as (a' & Ha' & Hfa').
      destruct (Hf a' bs') as [_ Htag']; [by right | done |].
      apply Hnotin. by rewrite <- (Htag b Hb), (Htag' b Hb').
    + apply IH; [done | done |]. intros a' bs' Ha'. apply Hf. by right.
Qed.

Lemma filterM_r_NoDup {A : Type} (f : A -> result bool) (l r : list A) :
  filterM_r f l = Ok r -> NoDup l -> NoDup r.
Proof.
  revert r. induction l as [|a l IH]; simpl; intros r Hm Hnd.
  - injection Hm as <-. constructor.
  - apply bind_ok_inv in Hm as (b & Hb & Hm).
    apply bind_ok_inv in Hm as (r0 & Hr0 & Hm). injection Hm as <-.
    apply NoDup_cons in Hnd as [Hnotin Hnd]. destruct b; [| by apply IH].
    apply NoDup_cons. split; [| by apply IH].
    intros Hin. by apply (filterM_r_elem _ _ _ Hr0) in Hin as [? _].
Qed.

Section StateSetSize.
Context {Vertex : Type} `{Countable Vertex}.
Implicit Types (V : list Vertex).

Lemma product_length V (n : nat) : length (product V n) = length V ^ n.
Proof.
  induction n as [|n IH]; [done |]. cbn [product Nat.pow].
  apply bind_length_const. intros x. by rewrite length_fmap.
Qed.

Lemma product_NoDup V (n : nat) : NoDup V -> NoDup (product V n).
Proof.
  intros Hnd. induction n as [|n IH]; cbn [product]; [apply NoDup_singleton |].
  apply NoDup_bind; [| | done].
  - intros x1 x2 tup _ _ H1 H2.
    apply list_elem_of_fmap in H1 as (r1 & -> & _).
    apply list_elem_of_fmap in H2 as (r2 & Heq & _). by injection Heq.
  - intros x _. apply NoDup_fmap_2_strong; [| done]. intros r1 r2 _ _ Heq. by injection Heq.
Qed.

Lemma slice_states_length V (k : Z) (t : nat) (s : bool) (L : list (@state Vertex)) :
  slice_states V k t s = Ok L -> length L = length V ^ Z.to_nat (k + 1).
Proof.
  unfold slice_states, product_repeat. intros HL.
  destruct (k + 1 <? 0)%Z; [discriminate |]. cbn [bind] in HL.
  by rewrite (mapM_r_length _ _ _ HL), product_length.
Qed.

Lemma slice_states_NoDup V (k : Z) (t : nat) (s : bool) (L : list (@state Vertex)) :
  NoDup V -> slice_states V k t s = Ok L -> NoDup L.
Proof.
  unfold slice_states, product_repeat. intros Hnd HL.
  destruct (k + 1 <? 0)%Z; [discriminate |]. cbn [bind] in HL.
  apply (mapM_r_NoDup _ _ _ HL); [by apply product_NoDup |].
  intros tup1 tup2 st _ _ H1 H2.
  apply bind_ok_inv in H1 as ([c1 r1] & Hun1 & H1).
  apply bind_ok_inv in H2 as ([c2 r2] & Hun2 & H2).
  apply unpack_star_inv in Hun1 as ->. apply unpack_star_inv in Hun2 as ->.
  simpl in H1, H2. congruence.
Qed.

(** X9: the state set has [time_horizon * 2 * len(V) ** (k + 1)]
    elements: one for every time step, turn value and tuple of [k + 1]
    vertices. *)
Theorem state_count V (th : nat) (k : Z) (V_gg : list (@state Vertex)) :
  game_states V th k = Ok V_gg ->
  length V_gg = th * (2 * length V ^ Z.to_nat (k + 1)).
Proof.
  unfold game_states. intros HV.
  apply bind_ok_inv in HV as (slices & Hsl & HV). injection HV as <-.
  rewrite (concat_length_const slices (2 * length V ^ Z.to_nat (k + 1))).
  - by rewrite (mapM_r_length _ _ _ Hsl), length_seq.
  - intros sl Hin. apply (mapM_r_elem _ _ _ Hsl) in Hin as (t & _ & Hf).
    apply bind_ok_inv in Hf as (ss & Hss & Hf). injection Hf as <-.
    rewrite (concat_length_const ss (length V ^ Z.to_nat (k + 1))).
    + by rewrite (mapM_r_length _ _ _ Hss).
    + intros x Hx. destruct (proj1 (mapM_r_elem _ _ _ Hss x) Hx) as (s & _ & Hs).
      by apply slice_states_length in Hs.
Qed.

(** X10: when [V] lists no vertex twice, the state set lists no state
    twice. *)
Theorem states_NoDup V (th : nat) (k : Z) (V_gg : list (@state Vertex)) :
  NoDup V -> game_states V th k = Ok V_gg -> NoDup V_gg.
Proof.
  unfold game_states. intros Hnd HV.
  apply bind_ok_inv in HV as (slices & Hsl & HV). injection HV as <-.
  apply (mapM_r_concat_NoDup _ time _ _ Hsl); [apply NoDup_seq |].
  intros t sl _ Hf. apply bind_ok_inv in Hf as (ss & Hss & Hf). injection Hf as <-.
  split.
  - apply (mapM_r_concat_NoDup _ turn _ _ Hss).
    + apply NoDup_cons. split; [| apply NoDup_singleton].
      intros Hin. by apply list_elem_of_singleton in Hin.
    + intros s L _ HL. split; [by apply (slice_states_NoDup V k t s) |].
      intros st Hst. by apply (slice_states_elem _ _ _ _ _ HL) in Hst as (_ & ? & _).
  - intros st Hst. apply elem_of_concat in Hst as (L & Hst & HL).
    destruct (proj1 (mapM_r_elem _ _ _ Hss L) HL) as (s & _ & Hs).
    by apply (slice_states_elem _ _ _ _ _ Hs) in Hst as (? & _).
Qed.

(** X11: the arc set lists no arc twice when the state list has no
    duplicates: every pair of states is tested once. *)
Theorem arcs_NoDup (G : list string) (adjancy : list (list string))
    (vertex_index : gmap Vertex nat) (th : nat)
    (V_gg : list (@state Vertex)) (A_gg : list (@arc Vertex)) :
  NoDup V_gg -> game_arcs G adjancy vertex_index th V_gg = Ok A_gg -> NoDup A_gg.
Proof.
  intros Hnd HA. apply (filterM_r_NoDup _ _ _ HA).
  unfold cprod, list_cprod. apply NoDup_bind; [| | done].
  - intros u1 u2 a _ _ H1 H2.
    apply list_elem_of_fmap in H1 as (v1 & -> & _).
    apply list_elem_of_fmap in H2 as (v2 & Heq & _). by injection Heq.
  - intros u _. apply NoDup_fmap_2_strong; [| done]. intros v1 v2 _ _ Heq. by injection Heq.
Qed.
End StateSetSize.

(** ** The verdict as a function of the attractor *)

Section VerdictFacts.
Context {Vertex : Type} `{Countable Vertex}.
Implicit Types (V : list Vertex) (att : list (@state Vertex)).

Lemma starting_classes_ext att1 att2 :
  (forall c r, State c r false 0 ∈ att1 <-> State c r false 0 ∈ att2) ->
  starting_classes att1 = starting_classes att2.
Proof.
  intros Hsame. apply map_eq. intros c.
  pose proof (starting_classes_inv att1 c) as H1.
  pose proof (starting_classes_inv att2 c) as H2.
  destruct (starting_classes att1 !! c) as [R1|], (starting_classes att2 !! c) as [R2|].
  - f_equal. apply set_eq. intros r. destruct H1 as [_ H1], H2 as [_ H2].
    by rewrite H1, H2, Hsame.
  - destruct H1 as [[r Hr] H1]. apply H1, Hsame in Hr. by apply H2 in Hr.
  - destruct H2 as [[r Hr] H2]. apply H2, Hsame in Hr. by apply H1 in Hr.
  - done.
Qed.

Lemma list_to_set_size_le (l : list Vertex) :
  size (list_to_set l : gset Vertex) <= length l /\
  (size (list_to_set l : gset Vertex) = length l -> NoDup l).
Proof.
  induction l as [|x l [IHle IHeq]]; [split; [done | constructor] |].
  cbn [list_to_set length].
  destruct (decide (x ∈ l)) as [Hin | Hout].
  - assert ({[x]} ∪ list_to_set l = (list_to_set l : gset Vertex)) as ->.
    { apply set_eq. intros y. rewrite elem_of_union, elem_of_singleton, !elem_of_list_to_set.
      split; [intros [-> | ?]; done | by right]. }
    split; lia.
  - rewrite size_union, size_singleton.
    + split; [lia |]. intros Heq. apply NoDup_cons. split; [done |]. apply IHeq. lia.
    + intros y Hy1 Hy2. apply elem_of_singleton in Hy1 as ->.
      by apply elem_of_list_to_set in Hy2.
Qed.

(** X12: the verdict only depends on which start states, those with
    time 0 and the cops to move, the attractor contains: its order, its
    repetitions and its other states do not matter. *)
Theorem verdict_depends_on_start_states (n : nat) att1 att2 :
  (forall c r, State c r false 0 ∈ att1 <-> State c r false 0 ∈ att2) ->
  kcop_verdict n att1 = kcop_verdict n att2.
Proof.
  intros Hsame. unfold kcop_verdict. by rewrite (starting_classes_ext att1 att2 Hsame).
Qed.

(** X13: when [V] is not empty and lists no vertex twice, and the
    robbers of the attractor's start states are vertices of [V], the
    verdict is [True] exactly when some cop tuple wins from every robber
    start: all the start states [(c, r, False, 0)] with [r] in [V] are in
    the attractor. *)
Theorem verdict_covers_every_start V att :
  NoDup V -> V <> [] ->
  (forall c r, State c r false 0 ∈ att -> r ∈ V) ->
  (kcop_verdict (length V) att = true <->
   exists c, forall r, r ∈ V -> State c r false 0 ∈ att).
Proof.
  intros Hnd Hne Hsub. rewrite kcop_verdict_true. split.
  - intros (c & R & Hm & Hsz). exists c.
    pose proof (starting_classes_inv att c) as Hc. rewrite Hm in Hc.
    destruct Hc as [_ Hc].
    assert (R = list_to_set V) as ->.
    { apply set_subseteq_size_eq.
      - intros r Hr. apply elem_of_list_to_set. apply (Hsub c). by apply Hc.
      - rewrite size_list_to_set by done. lia. }
    intros r Hr. apply Hc. by apply elem_of_list_to_set.
  - intros (c & Hall). pose proof (starting_classes_inv att c) as Hc.
    destruct V as [|x V']; [done |].
    destruct (starting_classes att !! c) as [R|] eqn:Em.
    + destruct Hc as [_ Hc]. exists c, R. split; [done |].
      replace R with (list_to_set (x :: V') : gset Vertex); [by apply size_list_to_set |].
      apply set_eq. intros r. rewrite elem_of_list_to_set, Hc. split; [apply Hall | apply Hsub].
    + exfalso. apply (Hc x). apply Hall. left.
Qed.

(** X14: the class size is compared with [len(V)], so when [V] lists
    some vertex twice no class can reach it: the verdict is [False] for
    every attractor whose robbers are vertices of [V]. *)
Theorem verdict_false_on_repeated_vertex V att :
  ~ NoDup V ->
  (forall c r, State c r false 0 ∈ att -> r ∈ V) ->
  kcop_verdict (length V) att = false.
Proof.
  intros Hdup Hsub. destruct (kcop_verdict (length V) att) eqn:Ev; [| done].
  exfalso. apply kcop_verdict_true in Ev as (c & R & Hm & Hsz).
  pose proof (starting_classes_inv att c) as Hc. rewrite Hm in Hc. destruct Hc as [_ Hc].
  assert (size R <= size (list_to_set V : gset Vertex)) as Hle.
  { apply subseteq_size. intros r Hr. apply elem_of_list_to_set. apply (Hsub c). by apply Hc. }
  destruct (list_to_set_size_le V) as [Hle' Heq]. apply Hdup, Heq. lia.
Qed.

Lemma vertex_index_fold_last (l : list Vertex) (i : nat) (m : gmap Vertex nat) (u : Vertex) :
  u ∈ l ->
  exists j, foldl (fun m p => <[p.2 := p.1]> m) m (enumerate_from i l) !! u = Some (i + j) /\
    l !! j = Some u /\ forall j', j < j' -> l !! j' <> Some u.
Proof.
  revert i m. induction l as [|a l IH]; intros i m Hu; [by apply elem_of_nil in Hu |].
  cbn [enumerate_from foldl fst snd].
  destruct (decide (u ∈ l)) as [Hin | Hout].
  - destruct (IH (S i) (<[a := i]> m) Hin) as (j & Hj & Hl & Hlast).
    exists (S j). split; [by rewrite Nat.add_succ_r |]. split; [done |].
    intros [|j'] Hlt; [lia |]. apply Hlast. lia.
  - apply elem_of_cons in Hu as [-> | Hu]; [| done].
    exists 0. destruct (vertex_index_fold l (S i) (<[a := i]> m) a) as [_ Hkeep].
    rewrite (Hkeep Hout), lookup_insert_eq, Nat.add_0_r. split; [done |]. split; [done |].
    intros [|j'] Hlt; [lia |]. simpl. intros Hj'. apply Hout.
    by apply list_elem_of_lookup_2 in Hj'.
Qed.

(** X15: [vertex_index] has an entry exactly for the vertices of [V];
    the entry of [u] is a position of [V] that holds [u], and it is the
    last such position when [V] lists [u] more than once. *)
Theorem vertex_index_round_trip V (u : Vertex) :
  (u ∈ V ->
   exists i, vertex_index V !! u = Some i /\ V !! i = Some u /\
     forall j, i < j -> V !! j <> Some u) /\
  (u ∉ V -> vertex_index V !! u = None).
Proof.
  split.
  - intros Hu. destruct (vertex_index_fold_last V 0 ∅ u Hu) as (j & Hj & Hl & Hlast).
    exists j. by split.
  - intros Hu. destruct (vertex_index_fold V 0 ∅ u) as [_ Hout].
    unfold vertex_index. by rewrite (Hout Hu).
Qed.
End VerdictFacts.

(** * The further properties on the self-test graphs *)

Lemma arcs_alternate_witness :
  State [1] 3 true 1 ∈ P2_states /\ State [1] 2 false 0 ∈ P2_states /\
  false = negb true /\
  State [1] 3 true 1 <> State [1] 2 false 0 /\
  (true = false -> 0 = 1 /\ 2 = 3) /\
  (true = true -> 0 = (1 + 1) mod 2 /\ [1] = [1]).
Proof.
  apply (arcs_alternate resolved_namespace (adjancy P2_V P2_tau) (vertex_index P2_V) 2
           P2_states P2_arcs (State [1] 3 true 1) (State [1] 2 false 0)).
  - reflexivity.
  - apply (bool_decide_unpack _). by vm_compute.
Defined.

Lemma arena_arcs_bipartite_witness :
  (State [1] 2 false 0 ∉ K2_arena.2) /\
  ((State [1] 2 false 0 ∈ K2_arena.1.1.1 /\ State [2] 2 true 0 ∈ K2_arena.1.1.2) \/
   (State [1] 2 false 0 ∈ K2_arena.1.1.2 /\ State [2] 2 true 0 ∈ K2_arena.1.1.1 /\
    (State [2] 2 true 0 ∉ K2_arena.2))).
Proof.
  apply (arena_arcs_bipartite resolved_namespace (adjancy K2_V (effective_tau K2_E None))
           (vertex_index K2_V) 1 K2_states K2_arcs
           K2_arena.1.1.1 K2_arena.1.1.2 K2_arena.2 K2_arena.1.2
           (State [1] 2 false 0) (State [2] 2 true 0)).
  - reflexivity.
  - reflexivity.
  - apply (bool_decide_unpack _). by vm_compute.
Defined.

Lemma out_arc_iff_not_captured_witness :
  (exists v, (State [1] 3 true 1, v) ∈ P2_arcs) <-> 3 ∉ [1].
Proof.
  apply (out_arc_iff_not_captured resolved_namespace (adjancy P2_V P2_tau)
           (vertex_index P2_V) P2_V 2 1 P2_states P2_arcs (State [1] 3 true 1)).
  - reflexivity.
  - reflexivity.
  - apply (bool_decide_unpack _). by vm_compute.
Defined.

Lemma add_to_arcs_never_raises_witness :
  exists b,
    add_to_arcs module_namespace (adjancy P2_V P2_tau) (vertex_index P2_V) 2
      (State [1] 3 true 1) (State [1] 2 false 0) = Ok b.
Proof.
  apply (add_to_arcs_never_raises module_namespace P2_V P2_E (Some P2_tau) 1 2 P2_states
           (State [1] 3 true 1) (State [1] 2 false 0)).
  - reflexivity.
  - reflexivity.
  - apply (bool_decide_unpack _). by vm_compute.
  - apply (bool_decide_unpack _). by vm_compute.
Defined.

Lemma symbol_periodic_witness :
  symbol_at (adjancy P2_V P2_tau) (vertex_index P2_V) 2 3 (1 + 2) =
  symbol_at (adjancy P2_V P2_tau) (vertex_index P2_V) 2 3 1.
Proof.
  apply (symbol_periodic P2_V P2_tau 2 2 3 1).
  - reflexivity.
  - apply (bool_decide_unpack _). by vm_compute.
  - apply (bool_decide_unpack _). by vm_compute.
Defined.

Lemma symbol_symmetric_witness :
  symbol_at (adjancy P2_V P2_tau) (vertex_index P2_V) 2 3 1 =
  symbol_at (adjancy P2_V P2_tau) (vertex_index P2_V) 3 2 1.
Proof.
  apply (symbol_symmetric P2_V P2_tau 2 3 1).
  - apply (bool_decide_unpack _). by vm_compute.
  - apply (bool_decide_unpack _). by vm_compute.
  - intros p q _ Hq. vm_compute in Hq. discriminate.
Defined.

Lemma static_graph_witness :
  present (adjancy P2_V (effective_tau P2_E None)) (vertex_index P2_V) 3 2 5 <->
  (3, 2) ∈ P2_E \/ (2, 3) ∈ P2_E.
Proof.
  destruct (static_graph P2_V P2_E) as [_ Hiff].
  apply (Hiff 3 2 5); apply (bool_decide_unpack _); by vm_compute.
Defined.

Lemma time_horizon_order_witness :
  time_horizon P2_tau = time_horizon [((2, 3), "01"); ((1, 2), "1")].
Proof.
  apply (time_horizon_order P2_tau [((2, 3), "01"); ((1, 2), "1")]).
  unfold P2_tau. apply perm_swap.
Defined.

Lemma state_count_witness :
  length P2_states = 2 * (2 * length P2_V ^ Z.to_nat (1 + 1)).
Proof. apply (state_count P2_V 2 1 P2_states). reflexivity. Defined.

Lemma states_NoDup_witness : NoDup P2_states.
Proof.
  apply (states_NoDup P2_V 2 1 P2_states).
  - apply (bool_decide_unpack _). by vm_compute.
  - reflexivity.
Defined.

Lemma arcs_NoDup_witness : NoDup K2_arcs.
Proof.
  apply (arcs_NoDup resolved_namespace (adjancy K2_V (effective_tau K2_E None))
           (vertex_index K2_V) 1 K2_states K2_arcs).
  - apply (bool_decide_unpack _). by vm_compute.
  - reflexivity.
Defined.

Lemma K2_attractor_same_starts :
  forall c r, State c r false 0 ∈ K2_attractor <-> State c r false 0 ∈ K2_attractor_shuffled.
Proof.
  intros c r. unfold K2_attractor, K2_attractor_shuffled.
  rewrite !elem_of_cons, !elem_of_nil. split.
  - intros [Heq | [Heq | [Heq | []]]]; [right; left | left | discriminate]; done.
  - intros [Heq | [Heq | [Heq | []]]]; [right; left | left | right; left]; done.
Qed.

Lemma verdict_depends_on_start_states_witness :
  kcop_verdict 2 K2_attractor = kcop_verdict 2 K2_attractor_shuffled.
Proof.
  apply (verdict_depends_on_start_states 2 K2_attractor K2_attractor_shuffled).
  exact K2_attractor_same_starts.
Defined.

Lemma K2_attractor_robbers :
  forall c r, State c r false 0 ∈ K2_attractor -> r ∈ K2_V.
Proof.
  intros c r Hin. destruct (K2_attractor_states _ Hin) as (_ & _ & _ & Hr). exact Hr.
Qed.

Lemma verdict_covers_every_start_witness :
  kcop_verdict (length K2_V) K2_attractor = true <->
  exists c, forall r, r ∈ K2_V -> State c r false 0 ∈ K2_attractor.
Proof.
  apply (verdict_covers_every_start K2_V K2_attractor).
  - apply (bool_decide_unpack _). by vm_compute.
  - discriminate.
  - exact K2_attractor_robbers.
Defined.

Lemma repeated_vertex_robbers :
  forall (c : list nat) r, State c r false 0 ∈ [State [1] 1 false 0] -> r ∈ [1; 1].
Proof.
  intros c r Hin. apply list_elem_of_singleton in Hin. injection Hin as _ ->. left.
Qed.

Lemma verdict_false_on_repeated_vertex_witness :
  kcop_verdict (length [1; 1]) [State [1] 1 false 0] = false.
Proof.
  apply (verdict_false_on_repeated_vertex [1; 1] [State [1] 1 false 0]).
  - apply (bool_decide_unpack _). by vm_compute.
  - exact repeated_vertex_robbers.
Defined.

Lemma vertex_index_round_trip_witness :
  exists i, vertex_index [7; 8; 7] !! 7 = Some i /\ [7; 8; 7] !! i = Some 7 /\
    forall j, i < j -> [7; 8; 7] !! j <> Some 7.
Proof.
  destruct (vertex_index_round_trip [7; 8; 7] 7) as [Hin _].
  apply Hin. left.
Defined.
